(** * ElementalDB: the table engine and the database facade

    A shallow embedding of [ElementalDB.py]: class [Table] (records, the
    per-column value index, add / update / delete / search, the snapshot
    dictionary) and class [ElementalDB] (named tables, the authentication
    gate, persistence after mutations, the search cache).

    Python dictionaries that are only looked up are finite maps; the
    dictionaries whose iteration order the program observes (a record, the
    table registry) are association lists in insertion order.  A method is a
    state transformer that yields the final state and either a result or the
    exception raised, so that what a failing call leaves behind is visible. *)

From stdpp Require Import gmap strings list fin_maps.

Set Warnings "-clear-no-such-hyp".

(** ** Values, exceptions, outcomes *)

(** Cell values: the hashable scalars the program stores (integers, text). *)
Inductive value :=
  | VInt (z : Z)
  | VStr (s : string).

#[global] Instance value_eq_dec : EqDecision value.
Proof. solve_decision. Defined.

#[global] Instance value_countable : Countable value.
Proof.
  refine (inj_countable'
            (λ v, match v with VInt z => inl z | VStr s => inr s end)
            (λ x, match x with inl z => VInt z | inr s => VStr s end) _).
  by intros [].
Defined.

Inductive exn :=
  | ValueError (msg : string)
  | PermissionError (msg : string)
  | KeyError
  | IndexError.

Inductive outcome (A : Type) :=
  | Return (a : A)
  | Raise (e : exn).
Arguments Return {A} a.
Arguments Raise {A} e.

(** A method over a mutable object of type [S]: the object after the call
    (mutations made before an exception stay), and the outcome. *)
Definition M (S A : Type) : Type := S → S * outcome A.

Definition ret {S A} (a : A) : M S A := λ s, (s, Return a).
Definition raise {S A} (e : exn) : M S A := λ s, (s, Raise e).
Definition bind {S A B} (m : M S A) (k : A → M S B) : M S B :=
  λ s, match m s with
       | (s', Return a) => k a s'
       | (s', Raise e) => (s', Raise e)
       end.
Definition get {S} : M S S := λ s, (s, Return s).
Definition put {S} (s : S) : M S unit := λ _, (s, Return tt).

Notation "x ⇐ m ; k" := (bind m (λ x, k))
  (at level 20, m at level 100, k at level 200, only parsing).
Notation "m ;;; k" := (bind m (λ _, k))
  (at level 100, k at level 200, only parsing, right associativity).

(** [for x in l: f x] *)
Fixpoint for_each {S X} (f : X → M S unit) (l : list X) : M S unit :=
  match l with
  | [] => ret tt
  | x :: l' => f x ;;; for_each f l'
  end.

(** ** Python lists *)

Definition len {A} (l : list A) : Z := Z.of_nat (length l).

(** Index normalisation of [l[i]]: negative indices count from the end. *)
Definition py_index (n : nat) (i : Z) : option nat :=
  if decide (0 ≤ i < Z.of_nat n)%Z then Some (Z.to_nat i)
  else if decide (- Z.of_nat n ≤ i < 0)%Z then Some (Z.to_nat (Z.of_nat n + i))
  else None.

(** [l[i]] *)
Definition getitem {A} (l : list A) (i : Z) : option A :=
  py_index (length l) i ≫= λ n, l !! n.

(** [l[i] = x] *)
Definition setitem {A} (l : list A) (i : Z) (x : A) : option (list A) :=
  (λ n, <[n:=x]> l) <$> py_index (length l) i.

(** [l.pop(i)] *)
Definition pop {A} (l : list A) (i : Z) : option (A * list A) :=
  py_index (length l) i ≫= λ n, (λ x, (x, delete n l)) <$> l !! n.

(** [l.remove(x)]: drops the first occurrence, fails when there is none. *)
Fixpoint list_remove (x : Z) (l : list Z) : option (list Z) :=
  match l with
  | [] => None
  | y :: l' => if decide (y = x) then Some l' else (y ::.) <$> list_remove x l'
  end.

(** [enumerate(l)] *)
Definition enumerate {A} (l : list A) : list (Z * A) :=
  zip (seqZ 0 (len l)) l.

(** ** Insertion-ordered dictionaries *)

Section dict.
Context {K V : Type} `{EqDecision K}.

(** [d[k] = v]: an existing key keeps its place, a new one goes last. *)
Fixpoint dict_set (d : list (K * V)) (k : K) (v : V) : list (K * V) :=
  match d with
  | [] => [(k, v)]
  | (k', v') :: d' =>
      if decide (k' = k) then (k, v) :: d' else (k', v') :: dict_set d' k v
  end.

Fixpoint dict_get (d : list (K * V)) (k : K) : option V :=
  match d with
  | [] => None
  | (k', v') :: d' => if decide (k' = k) then Some v' else dict_get d' k
  end.

(** [dict(pairs)] *)
Definition dict_of_pairs (l : list (K * V)) : list (K * V) :=
  fold_left (λ d kv, dict_set d kv.1 kv.2) l [].
End dict.

(** A record is a dictionary from column name to value. *)
Abbreviation record := (list (string * value)).

(** The secondary index: column name, then value, then the positions. *)
Abbreviation index := (gmap string (gmap value (list Z))).

(** [idx.get(col, {}).get(value)] and [idx.get(col, {}).get(value, [])] *)
Definition lookup2 (idx : index) (col : string) (v : value) : option (list Z) :=
  idx !! col ≫= λ b, b !! v.
Definition bucket (idx : index) (col : string) (v : value) : list Z :=
  default [] (lookup2 idx col v).

(** [idx[col].setdefault(value, []).append(pos)] *)
Definition index_append (col : string) (v : value) (pos : Z) : M index unit :=
  λ idx, match idx !! col with
         | None => (idx, Raise KeyError)
         | Some b =>
             (<[col := <[v := default [] (b !! v) ++ [pos]]> b]> idx, Return tt)
         end.

(** [idx[col][value].remove(pos)], then, when [drop_empty], the statement
    [if not idx[col][value]: del idx[col][value]]. *)
Definition index_remove (drop_empty : bool) (col : string) (v : value) (pos : Z)
  : M index unit :=
  λ idx, match idx !! col with
         | None => (idx, Raise KeyError)
         | Some b =>
             match b !! v with
             | None => (idx, Raise KeyError)
             | Some l =>
                 match list_remove pos l with
                 | None => (idx, Raise (ValueError "list.remove(x): x not in list"))
                 | Some l' =>
                     if drop_empty && bool_decide (l' = [])
                     then (<[col := delete v b]> idx, Return tt)
                     else (<[col := <[v := l']> b]> idx, Return tt)
                 end
             end
         end.

(** [[i if i < pos else i - 1 for i in l]] for every bucket of every column. *)
Definition shift (pos : Z) (i : Z) : Z := if decide (i < pos)%Z then i else (i - 1)%Z.
Definition renumber (pos : Z) (idx : index) : index :=
  (λ b : gmap value (list Z), (λ l : list Z, shift pos <$> l) <$> b) <$> idx.

(** ** class Table *)

Module Table.

Record t := mk {
  name : string;
  columns : list string;
  records : list record;
  indexed_data : index
}.

(** The dictionary exchanged with the snapshot file. *)
Record snapshot := mk_snapshot {
  snap_columns : list string;
  snap_records : list record
}.

Definition set_records (rs : list record) (self : t) : t :=
  mk (name self) (columns self) rs (indexed_data self).

Definition set_indexed_data (idx : index) (self : t) : t :=
  mk (name self) (columns self) (records self) idx.

(** A statement on [self.indexed_data]. *)
Definition on_index (m : M index unit) : M t unit :=
  λ self, let (idx, o) := m (indexed_data self) in (set_indexed_data idx self, o).

(** [{col: {} for col in columns}] *)
Definition empty_index (columns : list string) : index :=
  list_to_map ((λ col, (col, ∅)) <$> columns).

(** [Table(name, columns)] *)
Definition init (name : string) (columns : list string) : t :=
  mk name columns [] (empty_index columns).

Definition add_records (recs : list (list value)) : M t unit :=
  for_each (λ record : list value,
    self ⇐ get;
    if decide (length record ≠ length (columns self))
    then raise (ValueError "Record does not match the number of defined columns.")
    else
      let record_dict := dict_of_pairs (zip (columns self) record) in
      (put (set_records (records self ++ [record_dict]) self) ;;;
       for_each (λ '(col, v),
           self ⇐ get;
           on_index (index_append col v (len (records self) - 1)))
         record_dict)) recs.

Definition update (row_number : Z) (data : list value) : M t unit :=
  self ⇐ get;
  if negb (bool_decide (1 ≤ row_number ≤ len (records self))%Z)
  then raise (ValueError "Row number out of range.")
  else if decide (length data ≠ length (columns self))
  then raise (ValueError "Data does not match the number of columns.")
  else
    match getitem (records self) (row_number - 1) with
    | None => raise IndexError
    | Some old_record =>
        (for_each (λ '(col, v), on_index (index_remove false col v (row_number - 1)))
           old_record ;;;
         let new_record := dict_of_pairs (zip (columns self) data) in
         self ⇐ get;
         match setitem (records self) (row_number - 1) new_record with
         | None => raise IndexError
         | Some rs =>
             (put (set_records rs self) ;;;
              for_each (λ '(col, v), on_index (index_append col v (row_number - 1)))
                new_record)
         end)
    end.

Definition delete (row_number : Z) : M t unit :=
  self ⇐ get;
  if negb (bool_decide (1 ≤ row_number ≤ len (records self))%Z)
  then raise (ValueError "Row number out of range.")
  else
    match pop (records self) (row_number - 1) with
    | None => raise IndexError
    | Some (record_to_delete, rs) =>
        (put (set_records rs self) ;;;
         for_each (λ '(col, v), on_index (index_remove true col v (row_number - 1)))
           record_to_delete ;;;
         (* Adjust the indices in the indexed data *)
         on_index (λ idx, (renumber (row_number - 1) idx, Return tt)))
    end.

Definition search (v : value) (in_columns : list string) : M t (list record) :=
  self ⇐ get;
  match mapM (getitem (records self))
             (in_columns ≫= λ col, bucket (indexed_data self) col v) with
  | None => raise IndexError
  | Some results => ret results
  end.

Definition to_dict (self : t) : snapshot :=
  mk_snapshot (columns self) (records self).

Definition from_dict (data : snapshot) : M t unit :=
  self ⇐ get;
  (put (mk (name self) (snap_columns data) (snap_records data)
          (empty_index (snap_columns data))) ;;;
   for_each (λ '(index, record),
       for_each (λ '(col, v), on_index (index_append col v index)) record)
     (enumerate (snap_records data))).

End Table.

(** ** class ElementalDB *)

Module ElementalDB.

Abbreviation cache_key := (string * value * list string)%type.

(** The object's attributes, and the two places of the file system it
    reads and writes: [auth.auth] and the directory [database/], one
    snapshot per table name.  A snapshot file holds the dictionary that
    [Table.to_dict] hands to the JSON codec. *)
Record t := mk {
  tables : list (string * Table.t);
  auth_enabled : bool;
  auth_data : gmap string string;
  current_user : option string;
  cache : gmap cache_key (list record);
  auth_file : option (gmap string string);
  database : gmap string Table.snapshot
}.

Definition set_tables (x : list (string * Table.t)) (self : t) : t :=
  mk x (auth_enabled self) (auth_data self) (current_user self) (cache self)
     (auth_file self) (database self).
Definition set_auth_data (x : gmap string string) (self : t) : t :=
  mk (tables self) (auth_enabled self) x (current_user self) (cache self)
     (auth_file self) (database self).
Definition set_current_user (x : option string) (self : t) : t :=
  mk (tables self) (auth_enabled self) (auth_data self) x (cache self)
     (auth_file self) (database self).
Definition set_cache (x : gmap cache_key (list record)) (self : t) : t :=
  mk (tables self) (auth_enabled self) (auth_data self) (current_user self) x
     (auth_file self) (database self).
Definition set_auth_file (x : option (gmap string string)) (self : t) : t :=
  mk (tables self) (auth_enabled self) (auth_data self) (current_user self)
     (cache self) x (database self).
Definition set_database (x : gmap string Table.snapshot) (self : t) : t :=
  mk (tables self) (auth_enabled self) (auth_data self) (current_user self)
     (cache self) (auth_file self) x.

(** Truth value of [self.current_user]: [None] and the empty string are
    false. *)
Definition truthy (u : option string) : bool :=
  match u with
  | Some (String _ _) => true
  | _ => false
  end.

(** [ElementalDB(auth)], started on a file system with the given
    [auth.auth] and [database/]. *)
Definition init (auth : bool) (auth_file : option (gmap string string))
    (database : gmap string Table.snapshot) : t :=
  mk [] auth (default ∅ auth_file) None ∅ auth_file database.

(** A method call on the table object held in [self.tables]: the object
    is shared, so what the method changes is changed in the registry. *)
Definition on_table {A} (table_name : string) (table : Table.t)
    (m : M Table.t A) : M t A :=
  λ self, let (table', o) := m table in
          (set_tables (dict_set (tables self) table_name table') self, o).

(** [loop.run_in_executor(ProcessPoolExecutor(), method, *args)]: the
    worker process runs the bound method on a pickled copy of the object;
    the caller receives the result or the exception, never the copy. *)
Definition run_in_executor {S A} (method : M S A) (obj : S) : outcome A :=
  (method obj).2.

Definition save_auth_data : M t unit :=
  self ⇐ get; put (set_auth_file (Some (auth_data self)) self).

Section credentials.
(** [bcrypt.hashpw(password, salt)] and [bcrypt.checkpw(password, hashed)];
    the salt stands for the result of [bcrypt.gensalt()]. *)
Variable hashpw : string → string → string.
Variable checkpw : string → string → bool.

Definition signup (email password salt : string) : M t unit :=
  self ⇐ get;
  if bool_decide (email ∈ dom (auth_data self))
  then raise (ValueError "Email already exists.")
  else
    let hashed_password := hashpw password salt in
    (put (set_auth_data (<[email := hashed_password]> (auth_data self)) self) ;;;
     save_auth_data).

Definition signin (email password : string) : M t unit :=
  self ⇐ get;
  match auth_data self !! email with
  | None => raise (ValueError "Email does not exist.")
  | Some hashed_password =>
      if checkpw password hashed_password
      then put (set_current_user (Some email) self)
      else raise (ValueError "Invalid password.")
  end.
End credentials.

Definition logout : M t unit :=
  self ⇐ get;
  if truthy (current_user self)
  then put (set_current_user None self)
  else ret tt.

Definition table_create (name : string) (columns : list string)
    (overwrite : bool) : M t Table.t :=
  self ⇐ get;
  if auth_enabled self && negb (truthy (current_user self))
  then raise (PermissionError "You must be signed in to access the database.")
  else if bool_decide (name ∈ (tables self).*1) && negb overwrite
  then raise (ValueError ("Table '" +:+ name +:+
                          "' already exists. Use 'overwrite=True' to overwrite."))
  else
    (put (set_tables (dict_set (tables self) name (Table.init name columns)) self) ;;;
     ret (Table.init name columns)).

Definition save_table (table_name : string) : M t unit :=
  self ⇐ get;
  match dict_get (tables self) table_name with
  | Some table =>
      put (set_database (<[table_name := Table.to_dict table]> (database self)) self)
  | None => ret tt
  end.

Definition load_table (table_name : string) : M t unit :=
  self ⇐ get;
  match database self !! table_name with
  | Some data =>
      match Table.from_dict data (Table.init table_name (Table.snap_columns data)) with
      | (table, Return _) =>
          put (set_tables (dict_set (tables self) table_name table) self)
      | (_, Raise e) => raise e
      end
  | None => raise (ValueError ("Table '" +:+ table_name +:+ "' does not exist."))
  end.

Definition add (table_name : string) (records : list (list value)) : M t unit :=
  self ⇐ get;
  if auth_enabled self && negb (truthy (current_user self))
  then raise (PermissionError "You must be signed in to add records.")
  else
    match dict_get (tables self) table_name with
    | None => raise (ValueError ("Table '" +:+ table_name +:+ "' does not exist."))
    | Some table =>
        (on_table table_name table (Table.add_records records) ;;;
         save_table table_name)
    end.

Definition update (table_name : string) (row_number : Z) (data : list value)
  : M t unit :=
  self ⇐ get;
  if auth_enabled self && negb (truthy (current_user self))
  then raise (PermissionError "You must be signed in to update records.")
  else
    match dict_get (tables self) table_name with
    | None => raise (ValueError ("Table '" +:+ table_name +:+ "' does not exist."))
    | Some table =>
        match run_in_executor (Table.update row_number data) table with
        | Raise e => raise e
        | Return _ => save_table table_name
        end
    end.

Definition delete (table_name : string) (row_number : Z) : M t unit :=
  self ⇐ get;
  if auth_enabled self && negb (truthy (current_user self))
  then raise (PermissionError "You must be signed in to delete records.")
  else
    match dict_get (tables self) table_name with
    | None => raise (ValueError ("Table '" +:+ table_name +:+ "' does not exist."))
    | Some table =>
        match run_in_executor (Table.delete row_number) table with
        | Raise e => raise e
        | Return _ => save_table table_name
        end
    end.

Definition search (table_name : string) (v : value) (in_columns : list string)
  : M t (list record) :=
  self ⇐ get;
  (* Check cache first *)
  match cache self !! (table_name, v, in_columns) with
  | Some results => ret results
  | None =>
      match dict_get (tables self) table_name with
      | None => raise (ValueError ("Table '" +:+ table_name +:+ "' does not exist."))
      | Some table =>
          results ⇐ on_table table_name table (Table.search v in_columns);
          self ⇐ get;
          (put (set_cache (<[(table_name, v, in_columns) := results]> (cache self)) self) ;;;
           ret results)
      end
  end.

Definition list_tables : M t (list string) :=
  self ⇐ get; ret (tables self).*1.

(** The call surface, as one type of requests and one of results. *)
Inductive call :=
  | Signup (email password salt : string)
  | Signin (email password : string)
  | Logout
  | TableCreate (name : string) (columns : list string) (overwrite : bool)
  | SaveTable (table_name : string)
  | LoadTable (table_name : string)
  | Add (table_name : string) (records : list (list value))
  | Update (table_name : string) (row_number : Z) (data : list value)
  | Delete (table_name : string) (row_number : Z)
  | Search (table_name : string) (v : value) (in_columns : list string)
  | ListTables.

Inductive result :=
  | RNone
  | RTable (table : Table.t)
  | RRecords (results : list record)
  | RNames (names : list string).

Definition returning {A} (f : A → result) (m : M t A) : M t result :=
  a ⇐ m; ret (f a).

Section run.
Variable hashpw : string → string → string.
Variable checkpw : string → string → bool.

Definition perform (c : call) : M t result :=
  match c with
  | Signup email password salt =>
      returning (λ _, RNone) (signup hashpw email password salt)
  | Signin email password => returning (λ _, RNone) (signin checkpw email password)
  | Logout => returning (λ _, RNone) logout
  | TableCreate name columns overwrite =>
      returning RTable (table_create name columns overwrite)
  | SaveTable table_name => returning (λ _, RNone) (save_table table_name)
  | LoadTable table_name => returning (λ _, RNone) (load_table table_name)
  | Add table_name records => returning (λ _, RNone) (add table_name records)
  | Update table_name row_number data =>
      returning (λ _, RNone) (update table_name row_number data)
  | Delete table_name row_number =>
      returning (λ _, RNone) (delete table_name row_number)
  | Search table_name v in_columns =>
      returning RRecords (search table_name v in_columns)
  | ListTables => returning RNames list_tables
  end.

(** The state after a sequence of calls, whatever each one's outcome. *)
Definition run (calls : list call) (self : t) : t :=
  foldl (λ s c, (perform c s).1) self calls.
End run.

End ElementalDB.

(** * Specification vocabulary *)

(** The record at position [p] has value [v] in column [c]. *)
Definition holds (rs : list record) (p : Z) (c : string) (v : value) : Prop :=
  (0 ≤ p)%Z ∧ ∃ r, rs !! Z.to_nat p = Some r ∧ dict_get r c = Some v.

(** Every bucket lists, once each, exactly the positions that hold its value;
    [idx_ok_except n] leaves position [n] out of the index. *)
Definition idx_ok (rs : list record) (idx : index) : Prop :=
  ∀ c v, NoDup (bucket idx c v) ∧ ∀ p, p ∈ bucket idx c v ↔ holds rs p c v.

Definition idx_ok_except (n : nat) (rs : list record) (idx : index) : Prop :=
  ∀ c v, NoDup (bucket idx c v) ∧
         ∀ p, p ∈ bucket idx c v ↔ holds rs p c v ∧ p ≠ Z.of_nat n.

(** A record has each column of the table once. *)
Definition rec_ok (cols : list string) (r : record) : Prop :=
  NoDup r.*1 ∧ ∀ c, c ∈ r.*1 ↔ c ∈ cols.

Record wf (t : Table.t) : Prop := mk_wf {
  wf_dom : ∀ c, c ∈ dom (Table.indexed_data t) ↔ c ∈ Table.columns t;
  wf_rec : Forall (rec_ok (Table.columns t)) (Table.records t);
  wf_idx : idx_ok (Table.records t) (Table.indexed_data t)
}.

(** No bucket of the index is empty. *)
Definition no_empty_bucket (idx : index) : Prop := ∀ c v, lookup2 idx c v ≠ Some [].

(** The tables a program can build: a fresh table, then any calls of
    [add_records], [update] and [delete], returning or raising. *)
Inductive reachable : Table.t → Prop :=
  | reach_init name cols : reachable (Table.init name cols)
  | reach_add recs t : reachable t → reachable (Table.add_records recs t).1
  | reach_update row_number data t :
      reachable t → reachable (Table.update row_number data t).1
  | reach_delete row_number t : reachable t → reachable (Table.delete row_number t).1.

(** ** The facade *)

(** The authentication gate lets a call through: authentication is off, or
    [current_user] is true. *)
Definition allowed (s : ElementalDB.t) : bool :=
  negb (ElementalDB.auth_enabled s && negb (ElementalDB.truthy (ElementalDB.current_user s))).

(** Every record of a snapshot has each of its columns once. *)
Definition snapshot_ok (data : Table.snapshot) : Prop :=
  Forall (rec_ok (Table.snap_columns data)) (Table.snap_records data).

(** The registry has each name once, every registered table is consistent
    and carries the name it is registered under, and every snapshot file is
    well formed. *)
Record db_ok (s : ElementalDB.t) : Prop := mk_db_ok {
  db_names : NoDup (ElementalDB.tables s).*1;
  db_tables : ∀ k t, dict_get (ElementalDB.tables s) k = Some t → wf t ∧ Table.name t = k;
  db_files : ∀ k data, ElementalDB.database s !! k = Some data → snapshot_ok data
}.

(** ** Scenarios *)

Definition users : Table.t := Table.init "Users" ["id"; "name"; "age"].

(** Scenario A: Alice and Bob. *)
Definition scenario_A : Table.t :=
  (Table.add_records [[VInt 1; VStr "Alice"; VInt 30]; [VInt 2; VStr "Bob"; VInt 25]]
     users).1.

(** A table whose index has an emptied bucket: the only record is updated
    from value 1 to value 2. *)
Definition stale_table : Table.t :=
  (Table.update 1 [VInt 2] (Table.add_records [[VInt 1]] (Table.init "T" ["a"])).1).1.

(** An empty database without authentication, then scenario A through the
    facade. *)
Definition db0 : ElementalDB.t := ElementalDB.init false None ∅.

Definition db_users : ElementalDB.t :=
  (ElementalDB.table_create "Users" ["id"; "name"; "age"] false db0).1.

Definition db_A : ElementalDB.t :=
  (ElementalDB.add "Users"
     [[VInt 1; VStr "Alice"; VInt 30]; [VInt 2; VStr "Bob"; VInt 25]] db_users).1.

Definition alice30 : record := [("id", VInt 1); ("name", VStr "Alice"); ("age", VInt 30)].
Definition alice31 : record := [("id", VInt 1); ("name", VStr "Alice"); ("age", VInt 31)].

(** * Properties *)

(** ** Loops *)

(** A property kept by every iteration, whether it returns or raises, is
    kept by the loop. *)
Lemma for_each_inv {S X} (P : S → Prop) (f : X → M S unit) (l : list X) :
  (∀ x s, P s → P (f x s).1) → ∀ s, P s → P (for_each f l s).1.
Proof.
  intros Hf. induction l as [|x l IH]; intros s Hs; simpl; [done|].
  unfold bind. specialize (Hf x s Hs).
  destruct (f x s) as [s1 [[]|e]]; simpl in *; [by apply IH | done].
Qed.

(** ** Lists *)

Lemma filter_ne_notin (x : Z) (l : list Z) :
  x ∉ l → filter (λ y, y ≠ x) l = l.
Proof.
  induction l as [|y l IH]; [done|].
  rewrite not_elem_of_cons. intros [Hxy Hx].
  rewrite filter_cons_True by done. by rewrite IH.
Qed.

Lemma list_remove_None (x : Z) (l : list Z) :
  list_remove x l = None ↔ x ∉ l.
Proof.
  induction l as [|y l IH]; simpl.
  - split; [intros _; apply not_elem_of_nil | done].
  - rewrite not_elem_of_cons. case_decide as Hy.
    + split; [done | intros [? _]; congruence].
    + rewrite fmap_None, IH. split; [intros ?; split; [congruence | done] | by intros [_ ?]].
Qed.

Lemma list_remove_elem_of (x : Z) (l : list Z) :
  x ∈ l → is_Some (list_remove x l).
Proof.
  intros Hx. destruct (list_remove x l) eqn:E; [by eexists|].
  by apply list_remove_None in E.
Qed.

(** On a duplicate-free list, [remove] is a filter. *)
Lemma list_remove_NoDup (x : Z) (l : list Z) :
  NoDup l → x ∈ l → list_remove x l = Some (filter (λ y, y ≠ x) l).
Proof.
  induction 1 as [|y l Hy Hl IH]; [by intros ?%elem_of_nil|].
  intros Hx. simpl. case_decide as Hyx.
  - subst y. rewrite filter_cons_False by naive_solver.
    by rewrite filter_ne_notin.
  - rewrite filter_cons_True by done.
    apply elem_of_cons in Hx as [->|Hx]; [done|]. by rewrite IH.
Qed.

Lemma py_index_nat {n : nat} (i : nat) :
  i < n → py_index n (Z.of_nat i) = Some i.
Proof.
  intros Hi. unfold py_index. rewrite decide_True by lia. by rewrite Nat2Z.id.
Qed.

Lemma getitem_nat {A} (l : list A) (i : nat) (x : A) :
  l !! i = Some x → getitem l (Z.of_nat i) = Some x.
Proof.
  intros Hx. unfold getitem.
  rewrite py_index_nat by (by eapply lookup_lt_Some). done.
Qed.

(** ** Dictionaries *)

Section dict_facts.
Context {K V : Type} `{EqDecision K}.
Implicit Types (d : list (K * V)) (k : K) (v : V).

Lemma dict_set_keys d k v :
  (dict_set d k v).*1 = if decide (k ∈ d.*1) then d.*1 else d.*1 ++ [k].
Proof.
  induction d as [|[k' v'] d IH].
  - destruct (decide (k ∈ ([] : list (K * V)).*1)) as [Hin|Hin]; [|done].
    by apply elem_of_nil in Hin.
  - destruct (decide (k ∈ ((k', v') :: d).*1)) as [Hin|Hin];
      rewrite fmap_cons in Hin; cbn [fst] in Hin;
      cbn [dict_set]; destruct (decide (k' = k)) as [Hk|Hk].
    + by subst k'.
    + rewrite !fmap_cons, IH. cbn [fst].
      apply elem_of_cons in Hin as [?|Hin]; [congruence|].
      by rewrite decide_True.
    + subst k'. exfalso. apply Hin. apply elem_of_cons. by left.
    + rewrite !fmap_cons, IH. cbn [fst].
      rewrite decide_False; [done|].
      intros ?. apply Hin. apply elem_of_cons. by right.
Qed.

Lemma dict_set_NoDup d k v : NoDup d.*1 → NoDup (dict_set d k v).*1.
Proof.
  intros Hd. rewrite dict_set_keys. case_decide as Hk; [done|].
  apply NoDup_app. split_and!; [done | | apply NoDup_singleton].
  intros x Hx ->%list_elem_of_singleton. done.
Qed.

Lemma dict_set_elem_of_keys d k v k' :
  k' ∈ (dict_set d k v).*1 ↔ k' = k ∨ k' ∈ d.*1.
Proof.
  rewrite dict_set_keys. case_decide as Hk.
  - naive_solver.
  - rewrite elem_of_app, list_elem_of_singleton. naive_solver.
Qed.

Lemma dict_of_pairs_keys_aux (l : list (K * V)) d :
  NoDup d.*1 →
  NoDup (fold_left (λ d kv, dict_set d kv.1 kv.2) l d).*1 ∧
  ∀ k, k ∈ (fold_left (λ d kv, dict_set d kv.1 kv.2) l d).*1 ↔ k ∈ d.*1 ∨ k ∈ l.*1.
Proof.
  revert d. induction l as [|[k0 v0] l IH]; intros d Hd; simpl.
  - split; [done|]. intros k. rewrite elem_of_nil. naive_solver.
  - destruct (IH (dict_set d k0 v0)) as [Hnd Hin]; [by apply dict_set_NoDup|].
    split; [done|]. intros k. rewrite Hin, dict_set_elem_of_keys, elem_of_cons.
    naive_solver.
Qed.

Lemma dict_of_pairs_NoDup (l : list (K * V)) : NoDup (dict_of_pairs l).*1.
Proof. apply dict_of_pairs_keys_aux. apply NoDup_nil_2. Qed.

Lemma dict_of_pairs_keys (l : list (K * V)) k :
  k ∈ (dict_of_pairs l).*1 ↔ k ∈ l.*1.
Proof.
  unfold dict_of_pairs.
  destruct (dict_of_pairs_keys_aux l []) as [_ ->]; [apply NoDup_nil_2|].
  simpl. rewrite elem_of_nil. naive_solver.
Qed.

Lemma dict_get_Some_elem_of d k v : dict_get d k = Some v → (k, v) ∈ d.
Proof.
  induction d as [|[k' v'] d IH]; simpl; [done|].
  case_decide; [intros [= ->]; subst k'; apply elem_of_cons; by left|].
  intros ?. apply elem_of_cons. right. by apply IH.
Qed.

Lemma dict_get_elem_of d k v : NoDup d.*1 → (dict_get d k = Some v ↔ (k, v) ∈ d).
Proof.
  intros Hd. split; [apply dict_get_Some_elem_of|].
  induction d as [|[k' v'] d IH]; simpl; [by intros ?%elem_of_nil|].
  apply NoDup_cons in Hd as [Hk' Hd].
  intros [[= -> ->]|Hin]%elem_of_cons.
  - by rewrite decide_True.
  - rewrite decide_False; [by apply IH|].
    intros ->. apply Hk'. apply list_elem_of_fmap. by exists (k, v).
Qed.

Lemma dict_get_is_Some d k : is_Some (dict_get d k) ↔ k ∈ d.*1.
Proof.
  induction d as [|[k' v'] d IH]; simpl.
  - rewrite elem_of_nil. split; [by intros [? ?] | done].
  - rewrite elem_of_cons. case_decide as Hk.
    + split; [by left; subst | by eexists].
    + rewrite IH. naive_solver.
Qed.

End dict_facts.

(** ** The index statements *)

Lemma lookup2_insert (idx : index) (col : string) (b : gmap value (list Z)) c w :
  lookup2 (<[col := b]> idx) c w = if decide (c = col) then b !! w else lookup2 idx c w.
Proof.
  unfold lookup2. rewrite lookup_insert.
  destruct (decide (col = c)), (decide (c = col)); try done; congruence.
Qed.

Lemma lookup2_Some_dom (idx : index) c w l : lookup2 idx c w = Some l → c ∈ dom idx.
Proof.
  unfold lookup2. intros H. apply elem_of_dom.
  destruct (idx !! c); [by eexists | done].
Qed.

Lemma index_append_dom col v pos (idx : index) :
  dom (index_append col v pos idx).1 = dom idx.
Proof.
  unfold index_append. destruct (idx !! col) eqn:E; simpl; [|done].
  rewrite dom_insert_L. apply (elem_of_dom_2 idx) in E. set_solver.
Qed.

Lemma index_append_spec col v pos (idx : index) :
  col ∈ dom idx →
  ∃ idx', index_append col v pos idx = (idx', Return tt) ∧
    ∀ c w, lookup2 idx' c w =
           if decide ((c, w) = (col, v)) then Some (bucket idx c w ++ [pos])
           else lookup2 idx c w.
Proof.
  intros [b Hb]%elem_of_dom. unfold index_append. rewrite Hb.
  eexists; split; [done|]. intros c w. rewrite lookup2_insert.
  destruct (decide (c = col)) as [->|Hc].
  - rewrite lookup_insert. unfold bucket, lookup2. rewrite Hb. simpl.
    destruct (decide (v = w)) as [->|Hw].
    + by rewrite decide_True.
    + rewrite decide_False by congruence. done.
  - rewrite decide_False by congruence. done.
Qed.

Lemma index_remove_dom b col v pos (idx : index) :
  dom (index_remove b col v pos idx).1 = dom idx.
Proof.
  unfold index_remove. destruct (idx !! col) eqn:E; simpl; [|done].
  apply (elem_of_dom_2 idx) in E.
  destruct (_ !! v); simpl; [|done].
  destruct (list_remove pos _); simpl; [|done].
  destruct (_ && _); simpl; rewrite dom_insert_L; set_solver.
Qed.

Lemma index_remove_spec b col v pos (idx : index) :
  pos ∈ bucket idx col v →
  ∃ idx' l', index_remove b col v pos idx = (idx', Return tt) ∧
    list_remove pos (bucket idx col v) = Some l' ∧
    ∀ c w, lookup2 idx' c w =
           if decide ((c, w) = (col, v))
           then (if b && bool_decide (l' = []) then None else Some l')
           else lookup2 idx c w.
Proof.
  intros Hpos. destruct (list_remove_elem_of _ _ Hpos) as [l' Hl'].
  revert Hpos Hl'. unfold bucket, lookup2, index_remove.
  destruct (idx !! col) as [bk|] eqn:Hb; simpl; [|by intros ?%elem_of_nil].
  destruct (bk !! v) as [l|] eqn:Hl; simpl; [|by intros ?%elem_of_nil].
  intros Hpos Hl'. rewrite Hl'.
  assert (∀ (bk' : gmap value (list Z)) c w,
    bk' !! v = (if b && bool_decide (l' = []) then None else Some l') →
    (∀ w', w' ≠ v → bk' !! w' = bk !! w') →
    (<[col := bk']> idx !! c ≫= λ b0, b0 !! w) =
    if decide ((c, w) = (col, v))
    then (if b && bool_decide (l' = []) then None else Some l')
    else idx !! c ≫= λ b0, b0 !! w) as Haux.
  { intros bk' c w Hv Hother. rewrite lookup_insert.
    destruct (decide (col = c)) as [<-|Hc]; simpl.
    - rewrite Hb. simpl. destruct (decide (w = v)) as [->|Hw].
      + by rewrite decide_True.
      + rewrite decide_False by congruence. by apply Hother.
    - rewrite decide_False by congruence. done. }
  destruct (b && bool_decide (l' = [])) eqn:Hdrop.
  - eexists _, l'. split_and!; [done..|]. intros c w. rewrite Hdrop. apply Haux.
    + apply lookup_delete_eq.
    + intros w' Hw'. by apply lookup_delete_ne.
  - eexists _, l'. split_and!; [done..|]. intros c w. rewrite Hdrop. apply Haux.
    + apply lookup_insert_eq.
    + intros w' Hw'. by apply lookup_insert_ne.
Qed.

Lemma append_loop_spec pos (items : record) (idx : index) :
  NoDup items.*1 → (∀ c, c ∈ items.*1 → c ∈ dom idx) →
  ∃ idx', for_each (λ '(col, v), index_append col v pos) items idx = (idx', Return tt) ∧
    dom idx' = dom idx ∧
    ∀ c w, lookup2 idx' c w =
           if decide ((c, w) ∈ items) then Some (bucket idx c w ++ [pos])
           else lookup2 idx c w.
Proof.
  revert idx. induction items as [|[c0 v0] items IH]; intros idx Hnd Hdom.
  - exists idx. split_and!; [done..|]. intros c w.
    rewrite decide_False; [done | apply not_elem_of_nil].
  - rewrite fmap_cons in Hnd, Hdom. cbn [fst] in Hnd, Hdom.
    apply NoDup_cons in Hnd as [Hc0 Hnd].
    destruct (index_append_spec c0 v0 pos idx) as (idx1 & Hrun & Hlk).
    { apply Hdom, elem_of_cons. by left. }
    assert (dom idx1 = dom idx) as Hd1.
    { rewrite <- (index_append_dom c0 v0 pos idx). by rewrite Hrun. }
    destruct (IH idx1 Hnd) as (idx' & Hrun' & Hd' & Hlk').
    { intros c Hc. rewrite Hd1. apply Hdom, elem_of_cons. by right. }
    exists idx'. split_and!.
    + cbn [for_each]. unfold bind at 1. by rewrite Hrun.
    + congruence.
    + intros c w. rewrite Hlk'. unfold bucket. rewrite !Hlk.
      destruct (decide ((c, w) ∈ items)) as [Hin|Hin].
      * assert (c ≠ c0) as Hne.
        { intros ->. apply Hc0. apply list_elem_of_fmap. by exists (c0, w). }
        rewrite decide_False by congruence.
        rewrite decide_True; [done | apply elem_of_cons; by right].
      * destruct (decide ((c, w) = (c0, v0))) as [Heq|Hne].
        -- rewrite decide_True; [done | apply elem_of_cons; by left].
        -- rewrite decide_False; [done|]. rewrite elem_of_cons. naive_solver.
Qed.

Lemma remove_loop_spec b pos (items : record) (idx : index) :
  NoDup items.*1 → (∀ c v, (c, v) ∈ items → pos ∈ bucket idx c v) →
  ∃ idx', for_each (λ '(col, v), index_remove b col v pos) items idx = (idx', Return tt) ∧
    dom idx' = dom idx ∧
    ∀ c w, lookup2 idx' c w =
           if decide ((c, w) ∈ items)
           then list_remove pos (bucket idx c w) ≫= λ l',
                if b && bool_decide (l' = []) then None else Some l'
           else lookup2 idx c w.
Proof.
  revert idx. induction items as [|[c0 v0] items IH]; intros idx Hnd Hpos.
  - exists idx. split_and!; [done..|]. intros c w.
    rewrite decide_False; [done | apply not_elem_of_nil].
  - rewrite fmap_cons in Hnd. cbn [fst] in Hnd.
    apply NoDup_cons in Hnd as [Hc0 Hnd].
    destruct (index_remove_spec b c0 v0 pos idx) as (idx1 & l1 & Hrun & Hrm & Hlk).
    { apply Hpos, elem_of_cons. by left. }
    assert (dom idx1 = dom idx) as Hd1.
    { rewrite <- (index_remove_dom b c0 v0 pos idx). by rewrite Hrun. }
    assert (∀ c w, (c, w) ∈ items → c ≠ c0) as Hne.
    { intros c w Hin ->. apply Hc0. apply list_elem_of_fmap. by exists (c0, w). }
    destruct (IH idx1 Hnd) as (idx' & Hrun' & Hd' & Hlk').
    { intros c w Hin. unfold bucket. rewrite Hlk.
      rewrite decide_False by (specialize (Hne c w Hin); congruence).
      apply Hpos, elem_of_cons. by right. }
    exists idx'. split_and!.
    + cbn [for_each]. unfold bind at 1. by rewrite Hrun.
    + congruence.
    + intros c w. rewrite Hlk'. unfold bucket at 1. rewrite !Hlk.
      destruct (decide ((c, w) ∈ items)) as [Hin|Hin].
      * rewrite decide_False by (specialize (Hne c w Hin); congruence).
        rewrite decide_True; [done | apply elem_of_cons; by right].
      * destruct (decide ((c, w) = (c0, v0))) as [[= -> ->]|Hneq].
        -- rewrite decide_True; [|apply elem_of_cons; by left].
           by rewrite Hrm.
        -- rewrite decide_False; [done|]. rewrite elem_of_cons. naive_solver.
Qed.

(** ** The index invariant *)

Lemma holds_nat rs (n : nat) c v :
  holds rs (Z.of_nat n) c v ↔ ∃ r, rs !! n = Some r ∧ dict_get r c = Some v.
Proof.
  unfold holds. rewrite Nat2Z.id. split; [by intros [_ ?] | intros ?; split; [lia | done]].
Qed.

Lemma holds_lt rs p c v : holds rs p c v → (0 ≤ p < len rs)%Z.
Proof.
  intros [Hp (r & Hr & _)]. apply lookup_lt_Some in Hr. unfold len. lia.
Qed.

Lemma idx_ok_snoc rs r idx :
  idx_ok rs idx → idx_ok_except (length rs) (rs ++ [r]) idx.
Proof.
  intros Hok c v. destruct (Hok c v) as [Hnd Hin]. split; [done|].
  intros p. rewrite Hin. split.
  - intros Hh. pose proof (holds_lt _ _ _ _ Hh) as Hlt. unfold len in Hlt.
    split; [|lia]. destruct Hh as [Hp (r' & Hr' & Hg)].
    split; [done|]. exists r'. split; [|done]. by apply lookup_app_l_Some.
  - intros [[Hp (r' & Hr' & Hg)] Hne]. split; [done|]. exists r'. split; [|done].
    apply lookup_snoc_Some in Hr' as [[_ ?]|[? _]]; [done | lia].
Qed.

Lemma idx_ok_except_insert n r rs idx :
  idx_ok_except n rs idx → idx_ok_except n (<[n:=r]> rs) idx.
Proof.
  intros Hok c v. destruct (Hok c v) as [Hnd Hin]. split; [done|].
  intros p. rewrite Hin. unfold holds.
  split; intros [[Hp (r' & Hr' & Hg)] Hne]; (split; [|done]); (split; [done|]);
    exists r'; (split; [|done]).
  - rewrite list_lookup_insert_ne by lia. done.
  - rewrite list_lookup_insert_ne in Hr' by lia. done.
Qed.

(** Removing position [n] from the buckets of the record stored there. *)
Lemma idx_remove_ok b (n : nat) old rs idx :
  idx_ok rs idx → rs !! n = Some old → NoDup old.*1 →
  ∃ idx',
    for_each (λ '(col, v), index_remove b col v (Z.of_nat n)) old idx = (idx', Return tt) ∧
    dom idx' = dom idx ∧
    (∀ c w, lookup2 idx' c w =
            if decide (dict_get old c = Some w)
            then (if b && bool_decide (filter (λ p, p ≠ Z.of_nat n) (bucket idx c w) = [])
                  then None
                  else Some (filter (λ p, p ≠ Z.of_nat n) (bucket idx c w)))
            else lookup2 idx c w) ∧
    (∀ c w, bucket idx' c w = filter (λ p, p ≠ Z.of_nat n) (bucket idx c w)) ∧
    idx_ok_except n rs idx'.
Proof.
  intros Hok Hold Hnd.
  assert (∀ c w, dict_get old c = Some w ↔ Z.of_nat n ∈ bucket idx c w) as Hmem.
  { intros c w. destruct (Hok c w) as [_ ->]. rewrite holds_nat. split.
    - intros ?. by exists old.
    - intros (r & Hr & Hg). congruence. }
  destruct (remove_loop_spec b (Z.of_nat n) old idx Hnd) as (idx' & Hrun & Hdom & Hlk).
  { intros c w Hin. apply Hmem. by apply dict_get_elem_of. }
  assert (∀ c w, lookup2 idx' c w =
            if decide (dict_get old c = Some w)
            then (if b && bool_decide (filter (λ p, p ≠ Z.of_nat n) (bucket idx c w) = [])
                  then None
                  else Some (filter (λ p, p ≠ Z.of_nat n) (bucket idx c w)))
            else lookup2 idx c w) as Hlk2.
  { intros c w. rewrite Hlk. destruct (decide ((c, w) ∈ old)) as [Hin|Hin].
    - apply dict_get_elem_of in Hin; [|done]. rewrite decide_True by done.
      rewrite list_remove_NoDup; [done | apply Hok | by apply Hmem].
    - rewrite decide_False; [done|]. by rewrite dict_get_elem_of. }
  assert (∀ c w, bucket idx' c w = filter (λ p, p ≠ Z.of_nat n) (bucket idx c w)) as Hbk.
  { intros c w. unfold bucket at 1. rewrite Hlk2.
    destruct (decide (dict_get old c = Some w)) as [Hg|Hg].
    - destruct b; simpl; [|done]. case_bool_decide as He; simpl; [by rewrite He | done].
    - rewrite filter_ne_notin; [done|]. by rewrite <- Hmem. }
  exists idx'. split_and!; [done..|].
  intros c w. rewrite Hbk. destruct (Hok c w) as [Hnd' Hin]. split.
  - by apply NoDup_filter.
  - intros p. rewrite list_elem_of_filter, Hin. tauto.
Qed.

(** Appending position [n] to the buckets of the record stored there. *)
Lemma idx_append_ok (n : nat) r rs idx :
  idx_ok_except n rs idx → rs !! n = Some r → NoDup r.*1 →
  (∀ c, c ∈ r.*1 → c ∈ dom idx) →
  ∃ idx',
    for_each (λ '(col, v), index_append col v (Z.of_nat n)) r idx = (idx', Return tt) ∧
    dom idx' = dom idx ∧
    (∀ c w, lookup2 idx' c w =
            if decide (dict_get r c = Some w) then Some (bucket idx c w ++ [Z.of_nat n])
            else lookup2 idx c w) ∧
    idx_ok rs idx'.
Proof.
  intros Hok Hr Hnd Hkeys.
  destruct (append_loop_spec (Z.of_nat n) r idx Hnd Hkeys) as (idx' & Hrun & Hdom & Hlk).
  assert (∀ c w, lookup2 idx' c w =
            if decide (dict_get r c = Some w) then Some (bucket idx c w ++ [Z.of_nat n])
            else lookup2 idx c w) as Hlk2.
  { intros c w. rewrite Hlk. destruct (decide ((c, w) ∈ r)) as [Hin|Hin].
    - apply dict_get_elem_of in Hin; [|done]. by rewrite decide_True.
    - rewrite decide_False; [done|]. by rewrite dict_get_elem_of. }
  exists idx'. split_and!; [done..|].
  intros c w. destruct (Hok c w) as [Hnd' Hin]. unfold bucket at 1 2. rewrite Hlk2.
  destruct (decide (dict_get r c = Some w)) as [Hg|Hg]; simpl.
  - split.
    + apply NoDup_app. split_and!; [done | | apply NoDup_singleton].
      intros p Hp ->%list_elem_of_singleton. apply Hin in Hp. tauto.
    + intros p. rewrite elem_of_app, list_elem_of_singleton, Hin. split.
      * intros [[? _]| ->]; [done|]. apply holds_nat. by exists r.
      * intros Hh. destruct (decide (p = Z.of_nat n)); [by right | by left].
  - split; [done|]. intros p. fold (bucket idx c w). rewrite Hin. split; [tauto|].
    intros Hh. split; [done|]. intros ->. apply holds_nat in Hh as (r' & Hr' & Hg').
    congruence.
Qed.

Lemma bucket_renumber pos idx c w :
  bucket (renumber pos idx) c w = shift pos <$> bucket idx c w.
Proof.
  unfold bucket, lookup2, renumber. rewrite lookup_fmap.
  destruct (idx !! c) as [b|]; simpl; [|done].
  rewrite lookup_fmap. by destruct (b !! w).
Qed.

Lemma lookup2_renumber pos idx c w :
  lookup2 (renumber pos idx) c w = (λ l : list Z, shift pos <$> l) <$> lookup2 idx c w.
Proof.
  unfold lookup2, renumber. rewrite lookup_fmap.
  destruct (idx !! c) as [b|]; simpl; [|done]. by rewrite lookup_fmap.
Qed.

(** Renumbering after the record at [n] has gone. *)
Lemma idx_renumber_ok (n : nat) rs idx :
  idx_ok_except n rs idx → idx_ok (delete n rs) (renumber (Z.of_nat n) idx).
Proof.
  intros Hok c w. destruct (Hok c w) as [Hnd Hin]. rewrite bucket_renumber. split.
  - apply NoDup_fmap_2_strong; [|done].
    intros x y Hx%Hin Hy%Hin. unfold shift. repeat case_decide; lia.
  - intros p. rewrite list_elem_of_fmap. split.
    + intros (q & -> & [[Hq (r & Hr & Hg)] Hne]%Hin). unfold shift.
      case_decide as Hlt; (split; [lia|]); exists r; (split; [|done]).
      * rewrite list_lookup_delete_lt by lia. done.
      * rewrite list_lookup_delete_ge by lia. rewrite <- Hr. f_equal. lia.
    + intros [Hp (r & Hr & Hg)]. destruct (decide (p < Z.of_nat n)%Z) as [Hlt|Hge].
      * exists p. split; [unfold shift; by rewrite decide_True|].
        apply Hin. split; [|lia]. split; [done|]. exists r. split; [|done].
        rewrite list_lookup_delete_lt in Hr by lia. done.
      * exists (p + 1)%Z. split; [unfold shift; rewrite decide_False by lia; lia|].
        apply Hin. split; [|lia]. split; [lia|]. exists r. split; [|done].
        rewrite list_lookup_delete_ge in Hr by lia. rewrite <- Hr. f_equal. lia.
Qed.

(** ** The table methods on a consistent table *)

Lemma py_index_in_range (n : nat) (i : Z) :
  (0 ≤ i < Z.of_nat n)%Z → py_index n i = Some (Z.to_nat i).
Proof. intros Hi. unfold py_index. by rewrite decide_True. Qed.

(** A loop of index statements touches nothing but the index. *)
Lemma for_each_on_index {X} (g : X → M Table.t unit) (f : X → M index unit)
    (items : list X) (self : Table.t) :
  (∀ x idx, g x (Table.set_indexed_data idx self) =
            Table.on_index (f x) (Table.set_indexed_data idx self)) →
  for_each g items self = Table.on_index (for_each f items) self.
Proof.
  intros Hg.
  assert (∀ idx, for_each g items (Table.set_indexed_data idx self) =
                 Table.on_index (for_each f items) (Table.set_indexed_data idx self)) as H.
  { induction items as [|x items IH]; intros idx; [done|].
    cbn [for_each]. unfold bind at 1. rewrite Hg.
    unfold Table.on_index. cbn [Table.indexed_data Table.set_indexed_data].
    unfold bind. destruct (f x idx) as [idx1 [[]|e]]; [|done].
    specialize (IH idx1). unfold Table.on_index in IH.
    unfold Table.set_indexed_data in *.
    cbn [Table.name Table.columns Table.records Table.indexed_data] in *.
    by rewrite IH. }
  specialize (H (Table.indexed_data self)). by destruct self.
Qed.

Lemma rec_ok_dict_of_pairs (cols : list string) (data : list value) :
  length data = length cols → rec_ok cols (dict_of_pairs (zip cols data)).
Proof.
  intros Hlen. split; [apply dict_of_pairs_NoDup|].
  intros c. rewrite dict_of_pairs_keys, fst_zip by lia. done.
Qed.

Section table_methods.
Variable t : Table.t.
Hypothesis Hwf : wf t.

Let rs := Table.records t.
Let idx := Table.indexed_data t.
Let cols := Table.columns t.

Lemma wf_lookup (n : nat) r : rs !! n = Some r → rec_ok cols r.
Proof. intros Hr. by eapply (Forall_lookup_1 _ _ _ _ (wf_rec t Hwf)). Qed.

Lemma rec_ok_dom r c : rec_ok cols r → c ∈ r.*1 → c ∈ dom idx.
Proof. intros [_ Hk] Hc. apply (wf_dom t Hwf). by apply Hk. Qed.

(** One record of an [add_records] batch, of the right arity. *)
Lemma add_record_spec (data : list value) :
  length data = length cols →
  ∃ idx',
    (put (Table.set_records (rs ++ [dict_of_pairs (zip cols data)]) t) ;;;
     for_each (λ '(col, v),
         self ⇐ get;
         Table.on_index (index_append col v (len (Table.records self) - 1)))
       (dict_of_pairs (zip cols data))) t
    = (Table.mk (Table.name t) cols (rs ++ [dict_of_pairs (zip cols data)]) idx', Return tt) ∧
    (∀ c w, lookup2 idx' c w =
            if decide (dict_get (dict_of_pairs (zip cols data)) c = Some w)
            then Some (bucket idx c w ++ [len rs])
            else lookup2 idx c w) ∧
    wf (Table.mk (Table.name t) cols (rs ++ [dict_of_pairs (zip cols data)]) idx').
Proof.
  intros Hlen. set (new := dict_of_pairs (zip cols data)).
  pose proof (rec_ok_dict_of_pairs cols data Hlen) as Hnew. fold new in Hnew.
  destruct (idx_append_ok (length rs) new (rs ++ [new]) idx) as (idx' & Hrun & Hdom & Hlk & Hok).
  { apply idx_ok_snoc, (wf_idx t Hwf). }
  { apply list_lookup_middle. done. }
  { apply Hnew. }
  { intros c. by apply rec_ok_dom. }
  exists idx'. split_and!.
  - unfold bind at 1, put.
    rewrite (for_each_on_index _ (λ '(col, v), index_append col v (Z.of_nat (length rs)))).
    + unfold Table.on_index. cbn [Table.indexed_data Table.set_records].
      fold idx. by rewrite Hrun.
    + intros [col v] idx0. unfold bind, get. cbn [Table.records Table.set_records
        Table.set_indexed_data]. unfold len. rewrite length_app. cbn [length].
      fold rs. by replace (Z.of_nat (length rs + 1) - 1)%Z with (Z.of_nat (length rs)) by lia.
  - done.
  - split; cbn [Table.columns Table.records Table.indexed_data].
    + intros c. rewrite Hdom. apply (wf_dom t Hwf).
    + apply Forall_app. split; [apply (wf_rec t Hwf)|]. by apply Forall_singleton.
    + done.
Qed.

Lemma update_spec (row_number : Z) (data : list value) :
  (1 ≤ row_number ≤ len rs)%Z → length data = length cols →
  ∃ old idx',
    rs !! Z.to_nat (row_number - 1) = Some old ∧
    Table.update row_number data t
    = (Table.mk (Table.name t) cols
         (<[Z.to_nat (row_number - 1) := dict_of_pairs (zip cols data)]> rs) idx',
       Return tt) ∧
    (∀ c w, lookup2 idx' c w =
            if decide (dict_get (dict_of_pairs (zip cols data)) c = Some w)
            then Some (filter (λ p, p ≠ row_number - 1)%Z (bucket idx c w)
                       ++ [(row_number - 1)%Z])
            else if decide (dict_get old c = Some w)
            then Some (filter (λ p, p ≠ row_number - 1)%Z (bucket idx c w))
            else lookup2 idx c w) ∧
    wf (Table.mk (Table.name t) cols
          (<[Z.to_nat (row_number - 1) := dict_of_pairs (zip cols data)]> rs) idx').
Proof.
  intros Hrow Hlen. set (new := dict_of_pairs (zip cols data)).
  pose proof (rec_ok_dict_of_pairs cols data Hlen) as Hnew. fold new in Hnew.
  remember (Z.to_nat (row_number - 1)) as n eqn:Hn.
  assert (row_number - 1 = Z.of_nat n)%Z as Hpos by lia.
  assert (n < length rs) as Hlt by (unfold len in Hrow; lia).
  destruct (lookup_lt_is_Some_2 rs n Hlt) as [old Hold].
  pose proof (wf_lookup n old Hold) as Hrold.
  rewrite Hpos.
  destruct (idx_remove_ok false n old rs idx) as (idx1 & Hrun1 & Hdom1 & Hlk1 & Hbk1 & Hok1);
    [apply (wf_idx t Hwf) | done | apply Hrold |].
  destruct (idx_append_ok n new (<[n:=new]> rs) idx1) as (idx2 & Hrun2 & Hdom2 & Hlk2 & Hok2).
  { by apply idx_ok_except_insert. }
  { by apply list_lookup_insert_eq. }
  { apply Hnew. }
  { intros c Hc. rewrite Hdom1. apply (wf_dom t Hwf). by apply Hnew. }
  exists old, idx2. split_and!.
  - done.
  - unfold Table.update, bind at 1, get. fold rs cols.
    rewrite bool_decide_eq_true_2 by done. cbn [negb].
    rewrite decide_False by (by intros ?). rewrite Hpos.
    rewrite (getitem_nat _ _ _ Hold). unfold bind at 1.
    rewrite (for_each_on_index _ (λ '(col, v), index_remove false col v (Z.of_nat n)));
      [|by intros [col v] idx0].
    unfold Table.on_index at 1. fold idx. rewrite Hrun1.
    unfold bind at 1, get. cbn [Table.records Table.set_indexed_data]. fold rs.
    unfold setitem. rewrite py_index_nat by done. cbn [fmap option_fmap option_map].
    unfold bind at 1, put.
    rewrite (for_each_on_index _ (λ '(col, v), index_append col v (Z.of_nat n)));
      [|by intros [col v] idx0].
    unfold Table.on_index. cbn [Table.indexed_data Table.set_records Table.set_indexed_data].
    fold new. by rewrite Hrun2.
  - intros c w. rewrite Hlk2. fold new. rewrite Hbk1.
    destruct (decide (dict_get new c = Some w)); [done|].
    rewrite Hlk1. by destruct (decide (dict_get old c = Some w)).
  - split; cbn [Table.columns Table.records Table.indexed_data].
    + intros c. rewrite Hdom2, Hdom1. apply (wf_dom t Hwf).
    + apply Forall_insert; [apply (wf_rec t Hwf) | done].
    + done.
Qed.

Lemma delete_spec (row_number : Z) :
  (1 ≤ row_number ≤ len rs)%Z →
  ∃ old idx',
    rs !! Z.to_nat (row_number - 1) = Some old ∧
    Table.delete row_number t
    = (Table.mk (Table.name t) cols (delete (Z.to_nat (row_number - 1)) rs) idx',
       Return tt) ∧
    (∀ c w, lookup2 idx' c w =
            (λ l : list Z, shift (row_number - 1) <$> l) <$>
            (if decide (dict_get old c = Some w)
             then (if bool_decide (filter (λ p, p ≠ row_number - 1)%Z (bucket idx c w) = [])
                   then None
                   else Some (filter (λ p, p ≠ row_number - 1)%Z (bucket idx c w)))
             else lookup2 idx c w)) ∧
    (∀ c w, bucket idx' c w =
            shift (row_number - 1) <$> filter (λ p, p ≠ row_number - 1)%Z (bucket idx c w)) ∧
    wf (Table.mk (Table.name t) cols (delete (Z.to_nat (row_number - 1)) rs) idx').
Proof.
  intros Hrow.
  remember (Z.to_nat (row_number - 1)) as n eqn:Hn.
  assert (row_number - 1 = Z.of_nat n)%Z as Hpos by lia.
  assert (n < length rs) as Hlt by (unfold len in Hrow; lia).
  destruct (lookup_lt_is_Some_2 rs n Hlt) as [old Hold].
  pose proof (wf_lookup n old Hold) as Hrold.
  rewrite Hpos.
  destruct (idx_remove_ok true n old rs idx) as (idx1 & Hrun1 & Hdom1 & Hlk1 & Hbk1 & Hok1);
    [apply (wf_idx t Hwf) | done | apply Hrold |].
  exists old, (renumber (Z.of_nat n) idx1). split_and!.
  - done.
  - unfold Table.delete, bind at 1, get. fold rs cols.
    rewrite bool_decide_eq_true_2 by done. cbn [negb]. rewrite Hpos.
    unfold pop. rewrite py_index_nat by done. cbn [mbind option_bind].
    rewrite Hold. cbn [fmap option_fmap option_map].
    unfold bind at 1, put. unfold bind at 1.
    rewrite (for_each_on_index _ (λ '(col, v), index_remove true col v (Z.of_nat n)));
      [|by intros [col v] idx0].
    unfold Table.on_index. cbn [Table.indexed_data Table.set_records Table.set_indexed_data].
    fold idx. by rewrite Hrun1.
  - intros c w. rewrite lookup2_renumber, Hlk1. done.
  - intros c w. by rewrite bucket_renumber, Hbk1.
  - split; cbn [Table.columns Table.records Table.indexed_data].
    + intros c. unfold renumber. rewrite dom_fmap_L, Hdom1. apply (wf_dom t Hwf).
    + apply Forall_delete, (wf_rec t Hwf).
    + by apply idx_renumber_ok.
Qed.

End table_methods.

(** ** Reachable tables are consistent *)

Lemma lookup2_empty_index (cols : list string) c v :
  lookup2 (Table.empty_index cols) c v = None.
Proof.
  unfold lookup2, Table.empty_index.
  destruct (list_to_map _ !! c) as [b|] eqn:E; [|done].
  apply elem_of_list_to_map_2, list_elem_of_fmap in E as (col & [= _ ->] & _).
  simpl. apply lookup_empty.
Qed.

Lemma dom_empty_index (cols : list string) c :
  c ∈ dom (Table.empty_index cols) ↔ c ∈ cols.
Proof.
  unfold Table.empty_index. rewrite dom_list_to_map_L, elem_of_list_to_set.
  rewrite <- list_fmap_compose. by rewrite list_fmap_id.
Qed.

Lemma idx_ok_empty (cols : list string) : idx_ok [] (Table.empty_index cols).
Proof.
  intros c v. unfold bucket. rewrite lookup2_empty_index. simpl.
  split; [apply NoDup_nil_2|]. intros p. split; [by intros ?%elem_of_nil|].
  by intros [_ (r & ? & _)].
Qed.

Lemma wf_init (name : string) (cols : list string) : wf (Table.init name cols).
Proof.
  split; simpl.
  - apply dom_empty_index.
  - apply Forall_nil_2.
  - apply idx_ok_empty.
Qed.

Lemma add_records_wf (recs : list (list value)) (t : Table.t) :
  wf t → wf (Table.add_records recs t).1.
Proof.
  unfold Table.add_records. apply for_each_inv. clear t.
  intros data t Hwf. unfold bind at 1. unfold get at 1.
  destruct (decide (length data ≠ length (Table.columns t))) as [Hne|Heq]; [done|].
  cbv zeta.
  destruct (add_record_spec t Hwf data) as (idx' & Hrun & _ & Hwf');
    [by destruct (decide (length data = length (Table.columns t)))|].
  by rewrite Hrun.
Qed.

Lemma update_out_of_range (row_number : Z) (data : list value) (t : Table.t) :
  ¬ (1 ≤ row_number ≤ len (Table.records t))%Z →
  Table.update row_number data t = (t, Raise (ValueError "Row number out of range.")).
Proof.
  intros Hrow. unfold Table.update, bind, get.
  by rewrite bool_decide_eq_false_2.
Qed.

Lemma update_arity (row_number : Z) (data : list value) (t : Table.t) :
  (1 ≤ row_number ≤ len (Table.records t))%Z →
  length data ≠ length (Table.columns t) →
  Table.update row_number data t
  = (t, Raise (ValueError "Data does not match the number of columns.")).
Proof.
  intros Hrow Hlen. unfold Table.update, bind, get.
  rewrite bool_decide_eq_true_2 by done. cbn [negb]. by rewrite decide_True.
Qed.

Lemma delete_out_of_range (row_number : Z) (t : Table.t) :
  ¬ (1 ≤ row_number ≤ len (Table.records t))%Z →
  Table.delete row_number t = (t, Raise (ValueError "Row number out of range.")).
Proof.
  intros Hrow. unfold Table.delete, bind, get.
  by rewrite bool_decide_eq_false_2.
Qed.

Lemma update_wf (row_number : Z) (data : list value) (t : Table.t) :
  wf t → wf (Table.update row_number data t).1.
Proof.
  intros Hwf.
  destruct (decide (1 ≤ row_number ≤ len (Table.records t))%Z) as [Hrow|Hrow];
    [|by rewrite update_out_of_range].
  destruct (decide (length data = length (Table.columns t))) as [Hlen|Hlen];
    [|by rewrite update_arity].
  destruct (update_spec t Hwf row_number data Hrow Hlen) as (old & idx' & _ & -> & _ & Hwf').
  done.
Qed.

Lemma delete_wf (row_number : Z) (t : Table.t) :
  wf t → wf (Table.delete row_number t).1.
Proof.
  intros Hwf.
  destruct (decide (1 ≤ row_number ≤ len (Table.records t))%Z) as [Hrow|Hrow];
    [|by rewrite delete_out_of_range].
  destruct (delete_spec t Hwf row_number Hrow) as (old & idx' & _ & -> & _ & _ & Hwf').
  done.
Qed.

Lemma reachable_wf (t : Table.t) : reachable t → wf t.
Proof.
  induction 1; auto using wf_init, add_records_wf, update_wf, delete_wf.
Qed.

(** *** A batch with a record of the wrong arity *)

Lemma add_records_cons (data : list value) (recs : list (list value)) (t : Table.t) :
  Table.add_records (data :: recs) t
  = match Table.add_records [data] t with
    | (t1, Return _) => Table.add_records recs t1
    | (t1, Raise e) => (t1, Raise e)
    end.
Proof.
  unfold Table.add_records.
  match goal with |- for_each ?f _ _ = _ => set (body := f) end.
  cbn [for_each]. unfold bind, ret. by destruct (body data t) as [t1 [[]|e]].
Qed.

Lemma add_records_one (data : list value) (t : Table.t) :
  wf t → length data = length (Table.columns t) →
  ∃ idx',
    Table.add_records [data] t
    = (Table.mk (Table.name t) (Table.columns t)
         (Table.records t ++ [dict_of_pairs (zip (Table.columns t) data)]) idx',
       Return tt) ∧
    wf (Table.mk (Table.name t) (Table.columns t)
          (Table.records t ++ [dict_of_pairs (zip (Table.columns t) data)]) idx').
Proof.
  intros Hwf Hlen.
  destruct (add_record_spec t Hwf data Hlen) as (idx' & Hrun & _ & Hwf').
  exists idx'. split; [|done].
  unfold Table.add_records. cbn [for_each]. unfold bind at 1.
  match goal with |- context [bind get ?k t] => change (bind get k t) with (k t t) end.
  cbv beta. rewrite decide_False by (by intros ?). cbv zeta. by rewrite Hrun.
Qed.

Lemma add_records_bad (data : list value) (recs : list (list value)) (t : Table.t) :
  length data ≠ length (Table.columns t) →
  Table.add_records (data :: recs) t
  = (t, Raise (ValueError "Record does not match the number of defined columns.")).
Proof.
  intros Hlen. unfold Table.add_records. cbn [for_each]. unfold bind at 1.
  match goal with |- context [bind get ?k t] => change (bind get k t) with (k t t) end.
  cbv beta. by rewrite decide_True.
Qed.

(** The records before the first one of the wrong arity are added. *)
Lemma add_records_partial (recs1 : list (list value)) (bad : list value)
    (recs2 : list (list value)) (t : Table.t) :
  wf t →
  Forall (λ data, length data = length (Table.columns t)) recs1 →
  length bad ≠ length (Table.columns t) →
  (Table.add_records (recs1 ++ bad :: recs2) t).2
  = Raise (ValueError "Record does not match the number of defined columns.") ∧
  Table.records (Table.add_records (recs1 ++ bad :: recs2) t).1
  = Table.records t ++ ((λ data, dict_of_pairs (zip (Table.columns t) data)) <$> recs1).
Proof.
  revert t. induction recs1 as [|data recs1 IH]; intros t Hwf Hgood Hbad.
  - cbn [app]. rewrite add_records_bad by done. cbn [fst snd fmap list_fmap].
    by rewrite app_nil_r.
  - apply Forall_cons in Hgood as [Hlen Hgood].
    destruct (add_records_one data t Hwf Hlen) as (idx' & Hrun & Hwf').
    rewrite <- app_comm_cons, add_records_cons, Hrun.
    destruct (IH _ Hwf') as [Hraise Hrecs]; [done | done |].
    split; [done|]. rewrite Hrecs. cbn [Table.records Table.columns].
    by rewrite fmap_cons, <- app_assoc.
Qed.

(** ** Rebuilding the index from a snapshot *)

Lemma from_dict_loop (nm : string) (cols : list string) (all : list record)
    (rs2 rs1 : list record) (idx : index) :
  (∀ c, c ∈ dom idx ↔ c ∈ cols) → Forall (rec_ok cols) rs2 →
  idx_ok rs1 idx → no_empty_bucket idx →
  ∃ idx',
    for_each (λ '(index, record),
        for_each (λ '(col, v), Table.on_index (index_append col v index)) record)
      (zip (seqZ (len rs1) (len rs2)) rs2) (Table.mk nm cols all idx)
    = (Table.mk nm cols all idx', Return tt) ∧
    (∀ c, c ∈ dom idx' ↔ c ∈ cols) ∧ idx_ok (rs1 ++ rs2) idx' ∧ no_empty_bucket idx'.
Proof.
  revert rs1 idx. induction rs2 as [|r rs2 IH]; intros rs1 idx Hdom Hrec Hok Hne.
  - exists idx. rewrite app_nil_r. done.
  - apply Forall_cons in Hrec as [Hr Hrec].
    destruct (idx_append_ok (length rs1) r (rs1 ++ [r]) idx)
      as (idx1 & Hrun1 & Hdom1 & Hlk1 & Hok1).
    { by apply idx_ok_snoc. }
    { by apply list_lookup_middle. }
    { apply Hr. }
    { intros c Hc. apply Hdom. by apply Hr. }
    destruct (IH (rs1 ++ [r]) idx1) as (idx' & Hrun' & Hdom' & Hok' & Hne').
    { intros c. by rewrite Hdom1. }
    { done. }
    { done. }
    { intros c v. rewrite Hlk1. case_decide; [|apply Hne].
      intros [= Heq]. by apply app_nil in Heq as [_ ?]. }
    exists idx'. split_and!; [|done| |done].
    + rewrite seqZ_cons by (unfold len; cbn [length]; lia).
      cbn [zip zip_with for_each]. unfold bind at 1.
      rewrite (for_each_on_index _ (λ '(col, v), index_append col v (Z.of_nat (length rs1))));
        [|by intros [col v] idx0].
      unfold Table.on_index. cbn [Table.indexed_data Table.set_indexed_data].
      rewrite Hrun1. cbn [Table.name Table.columns Table.records].
      rewrite <- Hrun'. f_equal. f_equal. f_equal.
      * unfold len. rewrite length_app. cbn [length]. lia.
      * unfold len. cbn [length]. lia.
    + by rewrite <- app_assoc in Hok'.
Qed.

Lemma from_dict_spec (data : Table.snapshot) (self : Table.t) :
  Forall (rec_ok (Table.snap_columns data)) (Table.snap_records data) →
  ∃ idx',
    Table.from_dict data self
    = (Table.mk (Table.name self) (Table.snap_columns data) (Table.snap_records data) idx',
       Return tt) ∧
    wf (Table.mk (Table.name self) (Table.snap_columns data) (Table.snap_records data) idx') ∧
    no_empty_bucket idx'.
Proof.
  intros Hrec.
  destruct (from_dict_loop (Table.name self) (Table.snap_columns data)
              (Table.snap_records data) (Table.snap_records data) []
              (Table.empty_index (Table.snap_columns data)))
    as (idx' & Hrun & Hdom & Hok & Hne).
  { apply dom_empty_index. }
  { done. }
  { apply idx_ok_empty. }
  { intros c v. by rewrite lookup2_empty_index. }
  exists idx'. split_and!; [|by split|done].
  unfold Table.from_dict, bind at 1, get. unfold bind at 1, put.
  unfold enumerate. apply Hrun.
Qed.

(** ** Index consistency *)

Lemma elem_of_bucket (idx : index) c v p :
  p ∈ bucket idx c v → ∃ b l, idx !! c = Some b ∧ b !! v = Some l ∧ p ∈ l.
Proof.
  unfold bucket, lookup2. destruct (idx !! c) as [b|]; simpl; [|by intros ?%elem_of_nil].
  destruct (b !! v) as [l|] eqn:E; simpl; [|by intros ?%elem_of_nil].
  intros Hp. by exists b, l.
Qed.

Lemma bucket_lookup (idx : index) c b v l :
  idx !! c = Some b → b !! v = Some l → bucket idx c v = l.
Proof. intros Hb Hl. unfold bucket, lookup2. rewrite Hb. simpl. by rewrite Hl. Qed.

Lemma reachable_scenario_A : reachable scenario_A.
Proof. apply reach_add, reach_init. Qed.

(** C1 — Index consistency.  After any sequence of [add_records], [update]
    and [delete] calls on a fresh table, returning or raising, every record
    at a position [p] has, for every column [c] of the table, a value [v];
    [v] is a key of [index[c]], [p] is in the bucket [index[c][v]], and in
    no other bucket of [index[c]].  Moreover no bucket holds a stale
    position: whatever a bucket lists is the position of a record that has
    the bucket's value in that column. *)
Theorem index_consistency (t : Table.t) :
  reachable t →
  (∀ (c : string) (p : nat) (r : record),
     c ∈ Table.columns t → Table.records t !! p = Some r →
     ∃ v b l,
       dict_get r c = Some v ∧
       Table.indexed_data t !! c = Some b ∧ b !! v = Some l ∧ Z.of_nat p ∈ l ∧
       ∀ v' l', b !! v' = Some l' → Z.of_nat p ∈ l' → v' = v) ∧
  (∀ (c : string) b (v : value) l (q : Z),
     Table.indexed_data t !! c = Some b → b !! v = Some l → q ∈ l →
     (0 ≤ q)%Z ∧ ∃ r, Table.records t !! Z.to_nat q = Some r ∧ dict_get r c = Some v).
Proof.
  intros Hwf%reachable_wf. split.
  - intros c p r Hc Hr.
    pose proof (wf_lookup t Hwf p r Hr) as [_ Hkeys].
    apply Hkeys, dict_get_is_Some in Hc as [v Hv].
    assert (Z.of_nat p ∈ bucket (Table.indexed_data t) c v) as Hin.
    { apply (wf_idx t Hwf). apply holds_nat. by exists r. }
    destruct (elem_of_bucket _ _ _ _ Hin) as (b & l & Hb & Hl & Hp).
    exists v, b, l. split_and!; [done..|].
    intros v' l' Hl' Hp'.
    assert (Z.of_nat p ∈ bucket (Table.indexed_data t) c v') as Hin'
      by (by rewrite (bucket_lookup _ _ _ _ _ Hb Hl')).
    apply (wf_idx t Hwf), holds_nat in Hin' as (r' & Hr' & Hv'). congruence.
  - intros c b v l q Hb Hl Hq. apply (wf_idx t Hwf c v).
    by rewrite (bucket_lookup _ _ _ _ _ Hb Hl).
Qed.

Lemma index_consistency_witness :
  ∃ v b l,
    dict_get [("id", VInt 2); ("name", VStr "Bob"); ("age", VInt 25)] "name" = Some v ∧
    Table.indexed_data scenario_A !! "name" = Some b ∧ b !! v = Some l ∧
    Z.of_nat 1 ∈ l ∧ ∀ v' l', b !! v' = Some l' → Z.of_nat 1 ∈ l' → v' = v.
Proof.
  apply (proj1 (index_consistency scenario_A reachable_scenario_A) "name" 1%nat).
  - vm_compute. apply list_elem_of_further, list_elem_of_here.
  - reflexivity.
Defined.

(** ** Delete renumbering *)

(** C5 — Delete renumbering.  On a table of N records, [delete(k)] with
    [1 ≤ k ≤ N] returns, removes the record at [k-1], and maps every bucket
    of every column to its positions other than [k-1], each sent through
    [i ↦ i] below [k-1] and [i ↦ i-1] above: an entry above [k-1] is
    decremented by exactly one, an entry below is unchanged, and nothing
    else appears. *)
Theorem delete_renumbering (t : Table.t) (k : Z) :
  reachable t → (1 ≤ k ≤ len (Table.records t))%Z →
  ∃ t',
    Table.delete k t = (t', Return tt) ∧
    Table.records t' = delete (Z.to_nat (k - 1)) (Table.records t) ∧
    (∀ c v, bucket (Table.indexed_data t') c v =
            shift (k - 1) <$>
              filter (λ i, i ≠ k - 1)%Z (bucket (Table.indexed_data t) c v)) ∧
    (∀ c v i, i ∈ bucket (Table.indexed_data t) c v → (k - 1 < i)%Z →
              (i - 1)%Z ∈ bucket (Table.indexed_data t') c v) ∧
    (∀ c v i, i ∈ bucket (Table.indexed_data t) c v → (i < k - 1)%Z →
              i ∈ bucket (Table.indexed_data t') c v) ∧
    (∀ c v j, j ∈ bucket (Table.indexed_data t') c v →
              (j < k - 1 ∧ j ∈ bucket (Table.indexed_data t) c v)%Z ∨
              (k - 1 ≤ j ∧ (j + 1)%Z ∈ bucket (Table.indexed_data t) c v)%Z).
Proof.
  intros Hwf%reachable_wf Hk.
  destruct (delete_spec t Hwf k Hk) as (old & idx' & Hold & Hrun & _ & Hbk & _).
  eexists. split; [apply Hrun|]. cbn [Table.records Table.indexed_data].
  split_and!; [done | done | | |].
  - intros c v i Hi Hlt. rewrite Hbk. apply list_elem_of_fmap. exists i.
    split; [unfold shift; rewrite decide_False by lia; done|].
    apply list_elem_of_filter. split; [lia | done].
  - intros c v i Hi Hlt. rewrite Hbk. apply list_elem_of_fmap. exists i.
    split; [unfold shift; by rewrite decide_True|].
    apply list_elem_of_filter. split; [lia | done].
  - intros c v j. rewrite Hbk.
    intros (i & -> & [Hne Hi]%list_elem_of_filter)%list_elem_of_fmap.
    unfold shift. case_decide.
    + left. done.
    + right. split; [lia|]. by replace (i - 1 + 1)%Z with i by lia.
Qed.

Lemma delete_renumbering_witness :
  ∃ t',
    Table.delete 1 scenario_A = (t', Return tt) ∧
    Table.records t' = delete (Z.to_nat (1 - 1)) (Table.records scenario_A) ∧
    (∀ c v, bucket (Table.indexed_data t') c v =
            shift (1 - 1) <$>
              filter (λ i, i ≠ 1 - 1)%Z (bucket (Table.indexed_data scenario_A) c v)) ∧
    (∀ c v i, i ∈ bucket (Table.indexed_data scenario_A) c v → (1 - 1 < i)%Z →
              (i - 1)%Z ∈ bucket (Table.indexed_data t') c v) ∧
    (∀ c v i, i ∈ bucket (Table.indexed_data scenario_A) c v → (i < 1 - 1)%Z →
              i ∈ bucket (Table.indexed_data t') c v) ∧
    (∀ c v j, j ∈ bucket (Table.indexed_data t') c v →
              (j < 1 - 1 ∧ j ∈ bucket (Table.indexed_data scenario_A) c v)%Z ∨
              (1 - 1 ≤ j ∧ (j + 1)%Z ∈ bucket (Table.indexed_data scenario_A) c v)%Z).
Proof.
  apply (delete_renumbering scenario_A 1 reachable_scenario_A).
  vm_compute. split; discriminate.
Defined.

(** ** Search *)

Lemma mapM_getitem {A} (rs : list A) (l : list Z) :
  Forall (λ p, 0 ≤ p < len rs)%Z l →
  mapM (getitem rs) l = Some (omap (λ p, rs !! Z.to_nat p) l).
Proof.
  induction 1 as [|p l Hp _ IH]; [done|].
  cbn [mapM omap list_omap]. rewrite IH.
  unfold getitem. rewrite py_index_in_range by (unfold len in Hp; lia).
  cbn [mbind option_bind].
  destruct (lookup_lt_is_Some_2 rs (Z.to_nat p)) as [x Hx];
    [unfold len in Hp; lia|].
  rewrite Hx. done.
Qed.

Lemma omap_bind_list {A B C} (g : B → option C) (f : A → list B) (l : list A) :
  omap g (l ≫= f) = l ≫= λ x, omap g (f x).
Proof.
  induction l as [|x l IH]; [done|].
  rewrite !bind_cons, omap_app. by rewrite IH.
Qed.

Lemma search_spec (t : Table.t) (v : value) (cols : list string) :
  wf t →
  Table.search v cols t
  = (t, Return (cols ≫= λ c, omap (λ p, Table.records t !! Z.to_nat p)
                                (bucket (Table.indexed_data t) c v))).
Proof.
  intros Hwf. unfold Table.search, bind, get.
  rewrite mapM_getitem.
  - by rewrite omap_bind_list.
  - apply Forall_forall. intros p (c & Hp & _)%list_elem_of_bind.
    apply (wf_idx t Hwf) in Hp. by eapply holds_lt.
Qed.

Lemma search_one_elem_of (t : Table.t) (v : value) (c : string) (p : nat) (r : record) :
  wf t → Table.records t !! p = Some r → dict_get r c = Some v →
  r ∈ omap (λ p, Table.records t !! Z.to_nat p) (bucket (Table.indexed_data t) c v).
Proof.
  intros Hwf Hr Hv. apply list_elem_of_omap. exists (Z.of_nat p). split.
  - apply (wf_idx t Hwf). apply holds_nat. by exists r.
  - by rewrite Nat2Z.id.
Qed.

(** C6 — Search duplication semantics.  [search(value, columns)] returns
    the records at the positions of [index[col][value]], column after
    column in the order of [columns] and, within a column, in the order of
    its bucket; a bucket lists once each the positions whose record has the
    value in that column.  So a record that has the value in two requested
    columns is returned twice, once among the results of each column, in
    column-list order. *)
Theorem search_duplication (t : Table.t) (v : value) (cols : list string) :
  reachable t →
  Table.search v cols t
  = (t, Return (cols ≫= λ c, omap (λ p, Table.records t !! Z.to_nat p)
                                (bucket (Table.indexed_data t) c v))) ∧
  (∀ c, NoDup (bucket (Table.indexed_data t) c v) ∧
        ∀ p, p ∈ bucket (Table.indexed_data t) c v ↔
             (0 ≤ p)%Z ∧ ∃ r, Table.records t !! Z.to_nat p = Some r ∧
                              dict_get r c = Some v) ∧
  (∀ c1 c2 (p : nat) r,
     Table.records t !! p = Some r →
     dict_get r c1 = Some v → dict_get r c2 = Some v →
     ∃ l1 l2,
       Table.search v [c1] t = (t, Return l1) ∧
       Table.search v [c2] t = (t, Return l2) ∧
       Table.search v [c1; c2] t = (t, Return (l1 ++ l2)) ∧
       r ∈ l1 ∧ r ∈ l2).
Proof.
  intros Hwf%reachable_wf. split_and!.
  - by apply search_spec.
  - intros c. apply (wf_idx t Hwf).
  - intros c1 c2 p r Hr H1 H2.
    eexists _, _. rewrite !search_spec by done. split_and!.
    + rewrite bind_cons. cbn [mbind list_bind]. by rewrite app_nil_r.
    + rewrite bind_cons. cbn [mbind list_bind]. by rewrite app_nil_r.
    + rewrite !bind_cons. cbn [mbind list_bind]. by rewrite app_nil_r.
    + by eapply search_one_elem_of.
    + by eapply search_one_elem_of.
Qed.

Lemma search_duplication_witness :
  Table.search (VInt 7) ["a"; "b"] (Table.add_records [[VInt 7; VInt 7]] (Table.init "T" ["a"; "b"])).1
  = ((Table.add_records [[VInt 7; VInt 7]] (Table.init "T" ["a"; "b"])).1,
     Return [[("a", VInt 7); ("b", VInt 7)]; [("a", VInt 7); ("b", VInt 7)]]).
Proof.
  refine (eq_trans (proj1 (search_duplication _ (VInt 7) ["a"; "b"] _)) _).
  - apply reach_add, reach_init.
  - reflexivity.
Defined.

(** C10 — Search is total.  On every reachable table, for every value and
    every list of column names, [search] returns (it raises nothing and
    leaves the table as it is); a requested name that is not a column of the
    table, or a value without a bucket in a requested column, adds no
    result. *)
Theorem search_total (t : Table.t) (v : value) :
  reachable t →
  (∀ cols, ∃ results, Table.search v cols t = (t, Return results)) ∧
  (∀ c, c ∉ Table.columns t ∨ lookup2 (Table.indexed_data t) c v = None →
        Table.search v [c] t = (t, Return []) ∧
        ∀ cols1 cols2,
          Table.search v (cols1 ++ c :: cols2) t = Table.search v (cols1 ++ cols2) t).
Proof.
  intros Hwf%reachable_wf. split.
  - intros cols. eexists. by apply search_spec.
  - intros c Hc.
    assert (bucket (Table.indexed_data t) c v = []) as Hb.
    { unfold bucket. destruct Hc as [Hc| ->]; [|done].
      destruct (lookup2 _ c v) as [l|] eqn:E; [|done].
      apply lookup2_Some_dom, (wf_dom t Hwf) in E. done. }
    split.
    + rewrite search_spec by done. rewrite bind_cons, Hb. done.
    + intros cols1 cols2. rewrite !search_spec by done.
      rewrite !bind_app, bind_cons, Hb. done.
Qed.

Lemma search_total_witness :
  (∀ cols, ∃ results,
     Table.search (VStr "Carol") cols scenario_A = (scenario_A, Return results)) ∧
  (∀ c, c ∉ Table.columns scenario_A ∨
        lookup2 (Table.indexed_data scenario_A) c (VStr "Carol") = None →
        Table.search (VStr "Carol") [c] scenario_A = (scenario_A, Return []) ∧
        ∀ cols1 cols2,
          Table.search (VStr "Carol") (cols1 ++ c :: cols2) scenario_A
          = Table.search (VStr "Carol") (cols1 ++ cols2) scenario_A).
Proof.
  apply (search_total scenario_A (VStr "Carol")). apply reach_add, reach_init.
Defined.

(** ** Which statements drop index keys *)

Lemma filter_ne_nil (p : Z) (l : list Z) :
  (∀ q, q ∈ l → q = p) → filter (λ q, q ≠ p) l = [].
Proof.
  intros Hall. destruct (filter _ l) as [|q l'] eqn:E; [done|].
  assert (q ∈ filter (λ q, q ≠ p) l) as Hq by (rewrite E; apply list_elem_of_here).
  apply list_elem_of_filter in Hq as [Hne Hq]. by apply Hall in Hq.
Qed.

Lemma filter_ne_nil_inv (p : Z) (l : list Z) :
  filter (λ q, q ≠ p) l = [] → ∀ q, q ∈ l → q = p.
Proof.
  intros Hnil q Hq. destruct (decide (q = p)) as [|Hne]; [done|].
  by destruct (filter_nil_not_elem_of _ _ q Hnil Hne).
Qed.

(** The positions of a bucket, when at most the record at [n] has the value. *)
Lemma bucket_only (t : Table.t) (n : nat) c v :
  wf t →
  (∀ (q : nat) r, Table.records t !! q = Some r → dict_get r c = Some v → q = n) →
  ∀ p, p ∈ bucket (Table.indexed_data t) c v → p = Z.of_nat n.
Proof.
  intros Hwf Honly p [Hp (r & Hr & Hv)]%(wf_idx t Hwf).
  specialize (Honly _ _ Hr Hv). lia.
Qed.

Lemma add_records_keeps_keys (recs : list (list value)) (t : Table.t) c v :
  wf t → is_Some (lookup2 (Table.indexed_data t) c v) →
  is_Some (lookup2 (Table.indexed_data (Table.add_records recs t).1) c v).
Proof.
  intros Hwf Hkey.
  cut (wf (Table.add_records recs t).1 ∧
       is_Some (lookup2 (Table.indexed_data (Table.add_records recs t).1) c v));
    [by intros [_ ?]|].
  unfold Table.add_records.
  apply (for_each_inv (λ s, wf s ∧ is_Some (lookup2 (Table.indexed_data s) c v)));
    [|done].
  clear t Hwf Hkey. intros data t [Hwf Hkey].
  match goal with |- context [bind get ?k t] => change (bind get k t) with (k t t) end.
  cbv beta.
  destruct (decide (length data ≠ length (Table.columns t))) as [Hne|Heq]; [done|].
  cbv zeta.
  destruct (add_record_spec t Hwf data) as (idx' & Hrun & Hlk & Hwf');
    [by destruct (decide (length data = length (Table.columns t)))|].
  rewrite Hrun. split; [done|]. cbn [fst Table.indexed_data]. rewrite Hlk.
  by case_decide.
Qed.

(** C9 — Only [delete] drops index keys.  On a reachable table:
    [update] and [add_records] keep every value key of every column's index;
    after an [update] of the only record that had [v] in column [c] to a
    record that has another value there, [index[c]] still has the key [v],
    with the empty bucket; [delete] drops the key [v] of column [c] only
    when the deleted record had [v] in [c] and no other position was in the
    bucket, and then it does drop it; an empty bucket left by [update]
    survives a [delete]. *)
Theorem update_keeps_keys (t : Table.t) :
  reachable t →
  (∀ row_number data c v,
     is_Some (lookup2 (Table.indexed_data t) c v) →
     is_Some (lookup2 (Table.indexed_data (Table.update row_number data t).1) c v)) ∧
  (∀ recs c v,
     is_Some (lookup2 (Table.indexed_data t) c v) →
     is_Some (lookup2 (Table.indexed_data (Table.add_records recs t).1) c v)) ∧
  (∀ row_number data c v old,
     (1 ≤ row_number ≤ len (Table.records t))%Z →
     length data = length (Table.columns t) →
     Table.records t !! Z.to_nat (row_number - 1) = Some old →
     dict_get old c = Some v →
     (∀ (q : nat) r, Table.records t !! q = Some r → dict_get r c = Some v →
                     q = Z.to_nat (row_number - 1)) →
     dict_get (dict_of_pairs (zip (Table.columns t) data)) c ≠ Some v →
     Table.indexed_data (Table.update row_number data t).1 !! c ≫= (λ b, b !! v)
     = Some []) ∧
  (∀ row_number c v,
     is_Some (lookup2 (Table.indexed_data t) c v) →
     lookup2 (Table.indexed_data (Table.delete row_number t).1) c v = None →
     (1 ≤ row_number ≤ len (Table.records t))%Z ∧
     ∃ old, Table.records t !! Z.to_nat (row_number - 1) = Some old ∧
            dict_get old c = Some v ∧
            ∀ q, q ∈ bucket (Table.indexed_data t) c v → q = (row_number - 1)%Z) ∧
  (∀ row_number c v old,
     (1 ≤ row_number ≤ len (Table.records t))%Z →
     Table.records t !! Z.to_nat (row_number - 1) = Some old →
     dict_get old c = Some v →
     (∀ (q : nat) r, Table.records t !! q = Some r → dict_get r c = Some v →
                     q = Z.to_nat (row_number - 1)) →
     lookup2 (Table.indexed_data (Table.delete row_number t).1) c v = None) ∧
  (∀ row_number c v,
     lookup2 (Table.indexed_data t) c v = Some [] →
     lookup2 (Table.indexed_data (Table.delete row_number t).1) c v = Some []).
Proof.
  intros Hwf%reachable_wf. split_and!.
  - intros row_number data c v Hkey.
    destruct (decide (1 ≤ row_number ≤ len (Table.records t))%Z) as [Hrow|Hrow];
      [|by rewrite update_out_of_range].
    destruct (decide (length data = length (Table.columns t))) as [Hlen|Hlen];
      [|by rewrite update_arity].
    destruct (update_spec t Hwf row_number data Hrow Hlen)
      as (old & idx' & _ & -> & Hlk & _).
    cbn [fst Table.indexed_data]. rewrite Hlk. by repeat case_decide.
  - intros recs c v. by apply add_records_keeps_keys.
  - intros row_number data c v old Hrow Hlen Hold Hv Honly Hnew.
    destruct (update_spec t Hwf row_number data Hrow Hlen)
      as (old' & idx' & Hold' & -> & Hlk & _).
    cbn [fst Table.indexed_data]. fold (lookup2 idx' c v). rewrite Hlk.
    rewrite decide_False by done. rewrite decide_True by congruence.
    rewrite filter_ne_nil; [done|].
    intros q Hq. rewrite (bucket_only t _ c v Hwf Honly q Hq). lia.
  - intros row_number c v Hkey Hnone.
    destruct (decide (1 ≤ row_number ≤ len (Table.records t))%Z) as [Hrow|Hrow].
    + split; [done|].
      destruct (delete_spec t Hwf row_number Hrow)
        as (old & idx' & Hold & Hrun & Hlk & _).
      rewrite Hrun in Hnone. cbn [fst Table.indexed_data] in Hnone.
      rewrite Hlk in Hnone. exists old. split; [done|].
      destruct (decide (dict_get old c = Some v)) as [Hv|Hv].
      * split; [done|]. case_bool_decide as Hnil; [|done].
        by apply filter_ne_nil_inv.
      * destruct Hkey as [l Hl]. by rewrite Hl in Hnone.
    + rewrite delete_out_of_range in Hnone by done.
      destruct Hkey as [l Hl]. simpl in Hnone. congruence.
  - intros row_number c v old Hrow Hold Hv Honly.
    destruct (delete_spec t Hwf row_number Hrow)
      as (old' & idx' & Hold' & -> & Hlk & _).
    cbn [fst Table.indexed_data]. rewrite Hlk.
    rewrite decide_True by congruence.
    rewrite bool_decide_eq_true_2; [done|]. apply filter_ne_nil.
    intros q Hq. rewrite (bucket_only t _ c v Hwf Honly q Hq). lia.
  - intros row_number c v Hempty.
    destruct (decide (1 ≤ row_number ≤ len (Table.records t))%Z) as [Hrow|Hrow];
      [|by rewrite delete_out_of_range].
    destruct (delete_spec t Hwf row_number Hrow)
      as (old & idx' & Hold & -> & Hlk & _).
    cbn [fst Table.indexed_data]. rewrite Hlk.
    rewrite decide_False; [by rewrite Hempty|].
    intros Hv.
    assert (Z.of_nat (Z.to_nat (row_number - 1)) ∈ bucket (Table.indexed_data t) c v) as Hin.
    { apply (wf_idx t Hwf), holds_nat. by exists old. }
    unfold bucket in Hin. rewrite Hempty in Hin. by apply elem_of_nil in Hin.
Qed.

Lemma update_keeps_keys_witness :
  Table.indexed_data (Table.update 1 [VInt 1; VStr "Alice"; VInt 31] scenario_A).1
    !! "age" ≫= (λ b, b !! VInt 30)
  = Some [].
Proof.
  refine (proj1 (proj2 (proj2 (update_keeps_keys scenario_A reachable_scenario_A)))
            1%Z [VInt 1; VStr "Alice"; VInt 31] "age" (VInt 30)
            [("id", VInt 1); ("name", VStr "Alice"); ("age", VInt 30)] _ _ _ _ _ _).
  - vm_compute. split; discriminate.
  - reflexivity.
  - reflexivity.
  - reflexivity.
  - intros [|[|[|q]]] r Hr Hv; vm_compute in Hr; try discriminate.
    + reflexivity.
    + injection Hr as <-. vm_compute in Hv. discriminate.
  - vm_compute. discriminate.
Defined.

(** ** Snapshot round trip *)

(** C3, as stated, fails: the index of [stale_table] keeps the key 1 of
    column [a], with an empty bucket, and the index rebuilt from its
    snapshot has no such key, although the records are the same. *)
Lemma snapshot_round_trip_counterexample :
  reachable stale_table ∧
  (Table.from_dict (Table.to_dict stale_table) (Table.init "T" ["a"])).2 = Return tt ∧
  Table.records (Table.from_dict (Table.to_dict stale_table) (Table.init "T" ["a"])).1
  = Table.records stale_table ∧
  Table.indexed_data stale_table !! "a" ≫= (λ b, b !! VInt 1) = Some [] ∧
  Table.indexed_data (Table.from_dict (Table.to_dict stale_table) (Table.init "T" ["a"])).1
    !! "a" ≫= (λ b, b !! VInt 1) = None ∧
  Table.indexed_data (Table.from_dict (Table.to_dict stale_table) (Table.init "T" ["a"])).1
  ≠ Table.indexed_data stale_table.
Proof.
  split_and!.
  - apply reach_update, reach_add, reach_init.
  - vm_compute. reflexivity.
  - vm_compute. reflexivity.
  - vm_compute. reflexivity.
  - vm_compute. reflexivity.
  - intros Heq.
    apply (f_equal (λ idx : index, idx !! "a" ≫= (λ b, b !! VInt 1))) in Heq.
    vm_compute in Heq. discriminate.
Qed.

(** C3, amended — Snapshot round trip.  For every reachable table,
    [from_dict(to_dict(table))] returns a table with the same columns and
    the same record sequence, whose index has the same columns and, for
    every column and value, the same positions as the original bucket (a
    missing bucket counting as empty, the order within a bucket aside); the
    rebuilt index has a key exactly for the values whose original bucket is
    not empty. *)
Theorem snapshot_round_trip (t self : Table.t) :
  reachable t →
  ∃ t',
    Table.from_dict (Table.to_dict t) self = (t', Return tt) ∧
    Table.columns t' = Table.columns t ∧
    Table.records t' = Table.records t ∧
    (∀ c, c ∈ dom (Table.indexed_data t') ↔ c ∈ dom (Table.indexed_data t)) ∧
    (∀ c v, bucket (Table.indexed_data t') c v ≡ₚ bucket (Table.indexed_data t) c v) ∧
    (∀ c v, is_Some (lookup2 (Table.indexed_data t') c v) ↔
            bucket (Table.indexed_data t) c v ≠ []).
Proof.
  intros Hwf%reachable_wf.
  destruct (from_dict_spec (Table.to_dict t) self) as (idx' & Hrun & Hwf' & Hne);
    [apply (wf_rec t Hwf)|].
  cbn [Table.to_dict Table.snap_columns Table.snap_records] in *.
  eexists. split; [apply Hrun|]. cbn [Table.columns Table.records Table.indexed_data].
  assert (∀ c v, bucket idx' c v ≡ₚ bucket (Table.indexed_data t) c v) as Hperm.
  { intros c v. destruct (wf_idx _ Hwf' c v) as [Hnd' Hin'].
    destruct (wf_idx _ Hwf c v) as [Hnd Hin].
    apply NoDup_Permutation; [done..|]. intros p.
    rewrite Hin', Hin. done. }
  split_and!; [done | done | | done |].
  - intros c. rewrite (wf_dom _ Hwf' c), (wf_dom _ Hwf c). done.
  - intros c v. split.
    + intros [l Hl] Hnil. specialize (Hperm c v). rewrite Hnil in Hperm.
      apply Permutation_nil_r in Hperm. unfold bucket in Hperm. rewrite Hl in Hperm.
      simpl in Hperm. subst l. by apply (Hne c v).
    + intros Hnil. destruct (lookup2 idx' c v) as [l|] eqn:Hl; [by eexists|].
      exfalso. apply Hnil. apply Permutation_nil_r.
      specialize (Hperm c v). unfold bucket at 1 in Hperm. rewrite Hl in Hperm.
      by symmetry.
Qed.

Lemma snapshot_round_trip_witness :
  ∃ t',
    Table.from_dict (Table.to_dict stale_table) users = (t', Return tt) ∧
    Table.columns t' = Table.columns stale_table ∧
    Table.records t' = Table.records stale_table ∧
    (∀ c, c ∈ dom (Table.indexed_data t') ↔ c ∈ dom (Table.indexed_data stale_table)) ∧
    (∀ c v, bucket (Table.indexed_data t') c v
            ≡ₚ bucket (Table.indexed_data stale_table) c v) ∧
    (∀ c v, is_Some (lookup2 (Table.indexed_data t') c v) ↔
            bucket (Table.indexed_data stale_table) c v ≠ []).
Proof.
  apply (snapshot_round_trip stale_table users).
  apply reach_update, reach_add, reach_init.
Defined.

(** ** The database facade *)

(** C2 — Update visibility, at the facade: the scenario evaluated.
    [update("Users", 1, (1, "Alice", 31))] returns without an error, and the
    table in the registry is the one from before the call: the method ran
    on the worker's copy.  The two searches of the scenario then return the
    record with age 30.  Called on the table itself, [Table.update] gives
    what the scenario expects.  In general neither [update] nor [delete] of
    the facade changes the registry of tables. *)
Theorem scenario_B_update_lost :
  (ElementalDB.update "Users" 1 [VInt 1; VStr "Alice"; VInt 31] db_A).2 = Return tt ∧
  dict_get
    (ElementalDB.tables (ElementalDB.update "Users" 1 [VInt 1; VStr "Alice"; VInt 31] db_A).1)
    "Users" = Some scenario_A ∧
  (ElementalDB.search "Users" (VStr "Alice") ["name"]
     (ElementalDB.update "Users" 1 [VInt 1; VStr "Alice"; VInt 31] db_A).1).2
  = Return [alice30] ∧
  (ElementalDB.search "Users" (VInt 30) ["age"]
     (ElementalDB.search "Users" (VStr "Alice") ["name"]
        (ElementalDB.update "Users" 1 [VInt 1; VStr "Alice"; VInt 31] db_A).1).1).2
  = Return [alice30] ∧
  (Table.search (VStr "Alice") ["name"]
     (Table.update 1 [VInt 1; VStr "Alice"; VInt 31] scenario_A).1).2
  = Return [alice31] ∧
  (Table.search (VInt 30) ["age"]
     (Table.update 1 [VInt 1; VStr "Alice"; VInt 31] scenario_A).1).2
  = Return [] ∧
  (∀ s table_name row_number data,
     ElementalDB.tables (ElementalDB.update table_name row_number data s).1
     = ElementalDB.tables s) ∧
  (∀ s table_name row_number,
     ElementalDB.tables (ElementalDB.delete table_name row_number s).1
     = ElementalDB.tables s).
Proof.
  split_and!; [vm_compute; reflexivity..| |].
  - intros s table_name row_number data.
    unfold ElementalDB.update, ElementalDB.save_table, ElementalDB.run_in_executor,
      bind, get, put, ret, raise.
    by repeat (case_match; simplify_eq/=; try done).
  - intros s table_name row_number.
    unfold ElementalDB.delete, ElementalDB.save_table, ElementalDB.run_in_executor,
      bind, get, put, ret, raise.
    by repeat (case_match; simplify_eq/=; try done).
Qed.

(** C4 — Failure atomicity of [add], evaluated on a batch whose second
    record is short: the call raises the arity error and writes no
    snapshot, but the first record of the batch stays in the table and in
    its index.  In general the records before the first one of the wrong
    arity are added, so the table is left as it was only when that record
    comes first. *)
Theorem add_partial_batch :
  (Table.add_records [[VInt 1; VStr "Alice"; VInt 30]; [VInt 2; VStr "Bob"]] users).2
  = Raise (ValueError "Record does not match the number of defined columns.") ∧
  Table.records
    (Table.add_records [[VInt 1; VStr "Alice"; VInt 30]; [VInt 2; VStr "Bob"]] users).1
  = [alice30] ∧
  bucket
    (Table.indexed_data
       (Table.add_records [[VInt 1; VStr "Alice"; VInt 30]; [VInt 2; VStr "Bob"]] users).1)
    "name" (VStr "Alice")
  = [0%Z] ∧
  (ElementalDB.add "Users" [[VInt 1; VStr "Alice"; VInt 30]; [VInt 2; VStr "Bob"]]
     db_users).2
  = Raise (ValueError "Record does not match the number of defined columns.") ∧
  ElementalDB.database
    (ElementalDB.add "Users" [[VInt 1; VStr "Alice"; VInt 30]; [VInt 2; VStr "Bob"]]
       db_users).1
  = ElementalDB.database db_users ∧
  Table.records <$>
    dict_get
      (ElementalDB.tables
         (ElementalDB.add "Users" [[VInt 1; VStr "Alice"; VInt 30]; [VInt 2; VStr "Bob"]]
            db_users).1)
      "Users"
  = Some [alice30] ∧
  Table.records <$> dict_get (ElementalDB.tables db_users) "Users" = Some [] ∧
  (∀ t recs1 bad recs2,
     reachable t →
     Forall (λ data, length data = length (Table.columns t)) recs1 →
     length bad ≠ length (Table.columns t) →
     (Table.add_records (recs1 ++ bad :: recs2) t).2
     = Raise (ValueError "Record does not match the number of defined columns.") ∧
     Table.records (Table.add_records (recs1 ++ bad :: recs2) t).1
     = Table.records t ++ ((λ data, dict_of_pairs (zip (Table.columns t) data)) <$> recs1)).
Proof.
  split_and!; [vm_compute; reflexivity..|].
  intros t recs1 bad recs2 Hwf%reachable_wf. by apply add_records_partial.
Qed.

(** C8 — Authentication gate.  With authentication enabled and nobody
    signed in ([current_user] is [None], or the empty string, which Python
    takes as false), [add], [update], [delete] and [table_create] raise
    [PermissionError] and leave the whole state as it was: the registry,
    every table, the cache and the snapshot files. *)
Theorem authentication_gate (s : ElementalDB.t) :
  ElementalDB.auth_enabled s = true →
  ElementalDB.truthy (ElementalDB.current_user s) = false →
  (∀ table_name records,
     ElementalDB.add table_name records s
     = (s, Raise (PermissionError "You must be signed in to add records."))) ∧
  (∀ table_name row_number data,
     ElementalDB.update table_name row_number data s
     = (s, Raise (PermissionError "You must be signed in to update records."))) ∧
  (∀ table_name row_number,
     ElementalDB.delete table_name row_number s
     = (s, Raise (PermissionError "You must be signed in to delete records."))) ∧
  (∀ name columns overwrite,
     ElementalDB.table_create name columns overwrite s
     = (s, Raise (PermissionError "You must be signed in to access the database."))).
Proof.
  intros Hauth Huser. split_and!; intros;
    unfold ElementalDB.add, ElementalDB.update, ElementalDB.delete,
      ElementalDB.table_create, bind, get;
    by rewrite Hauth, Huser.
Qed.

Lemma authentication_gate_witness :
  ElementalDB.add "Users" [[VInt 1; VStr "Alice"; VInt 30]] (ElementalDB.init true None ∅)
  = (ElementalDB.init true None ∅,
     Raise (PermissionError "You must be signed in to add records.")).
Proof.
  apply (authentication_gate (ElementalDB.init true None ∅)); reflexivity.
Defined.

(** ** The search cache *)

Section cache.
Variable hashpw : string → string → string.
Variable checkpw : string → string → bool.

(** No call removes or replaces a cache entry. *)
Lemma perform_cache_keeps (c : ElementalDB.call) (s : ElementalDB.t)
    (k : ElementalDB.cache_key) (results : list record) :
  ElementalDB.cache s !! k = Some results →
  ElementalDB.cache (ElementalDB.perform hashpw checkpw c s).1 !! k = Some results.
Proof.
  intros Hk.
  destruct c; cbn [ElementalDB.perform]; unfold ElementalDB.returning,
    ElementalDB.signup, ElementalDB.signin, ElementalDB.logout,
    ElementalDB.table_create, ElementalDB.save_table, ElementalDB.load_table,
    ElementalDB.add, ElementalDB.update, ElementalDB.delete, ElementalDB.search,
    ElementalDB.list_tables, ElementalDB.save_auth_data, ElementalDB.on_table,
    ElementalDB.save_table, ElementalDB.run_in_executor, bind, get, put, ret, raise;
    repeat (case_match; simplify_eq/=; try done).
  - rewrite lookup_insert_ne; [done|]. intros <-. congruence.
  - done.
Qed.

Lemma run_cache_keeps (calls : list ElementalDB.call) (s : ElementalDB.t)
    (k : ElementalDB.cache_key) (results : list record) :
  ElementalDB.cache s !! k = Some results →
  ElementalDB.cache (ElementalDB.run hashpw checkpw calls s) !! k = Some results.
Proof.
  revert s. induction calls as [|c calls IH]; intros s Hk; [done|].
  cbn [ElementalDB.run foldl]. apply IH. by apply perform_cache_keeps.
Qed.

Lemma search_cached (table_name : string) (v : value) (in_columns : list string)
    (s : ElementalDB.t) (results : list record) :
  ElementalDB.cache s !! (table_name, v, in_columns) = Some results →
  ElementalDB.search table_name v in_columns s = (s, Return results).
Proof. intros Hk. unfold ElementalDB.search, bind, get. by rewrite Hk. Qed.

Lemma search_stores (table_name : string) (v : value) (in_columns : list string)
    (s s1 : ElementalDB.t) (results : list record) :
  ElementalDB.search table_name v in_columns s = (s1, Return results) →
  ElementalDB.cache s1 !! (table_name, v, in_columns) = Some results.
Proof.
  unfold ElementalDB.search, ElementalDB.on_table, bind, get, put, ret, raise.
  repeat (case_match; simplify_eq/=; try done); intros; simplify_eq/=; try done.
  apply lookup_insert_eq.
Qed.

(** C7 — Cache hits.  Once [search(table, value, columns)] has returned a
    result, every later [search] with the same three arguments returns that
    same result and changes nothing, whatever calls (add, update, delete and
    all the others) were made in between; the answer does not depend on the
    tables: it is the same with any registry put in their place. *)
Theorem cache_hit (table_name : string) (v : value) (in_columns : list string)
    (s s1 : ElementalDB.t) (results : list record) (calls : list ElementalDB.call) :
  ElementalDB.search table_name v in_columns s = (s1, Return results) →
  ElementalDB.search table_name v in_columns (ElementalDB.run hashpw checkpw calls s1)
  = (ElementalDB.run hashpw checkpw calls s1, Return results) ∧
  ∀ tables,
    ElementalDB.search table_name v in_columns
      (ElementalDB.set_tables tables (ElementalDB.run hashpw checkpw calls s1))
    = (ElementalDB.set_tables tables (ElementalDB.run hashpw checkpw calls s1),
       Return results).
Proof.
  intros Hs%search_stores. apply (run_cache_keeps calls) in Hs.
  split; [|intros tables]; by apply search_cached.
Qed.

End cache.

(** After the cached search for Alice, a third record named Alice is added
    and the first record is deleted through the facade; the search still
    answers with the first result. *)
Lemma cache_hit_witness :
  ElementalDB.search "Users" (VStr "Alice") ["name"]
    (ElementalDB.run (λ password salt, password) String.eqb
       [ElementalDB.Add "Users" [[VInt 3; VStr "Alice"; VInt 40]];
        ElementalDB.Delete "Users" 1]
       (ElementalDB.search "Users" (VStr "Alice") ["name"] db_A).1)
  = (ElementalDB.run (λ password salt, password) String.eqb
       [ElementalDB.Add "Users" [[VInt 3; VStr "Alice"; VInt 40]];
        ElementalDB.Delete "Users" 1]
       (ElementalDB.search "Users" (VStr "Alice") ["name"] db_A).1,
     Return [alice30]).
Proof.
  refine (proj1 (cache_hit (λ password salt, password) String.eqb
                   "Users" (VStr "Alice") ["name"] db_A _ [alice30] _ _)).
  vm_compute. reflexivity.
Defined.

(** * Further properties of the table methods *)

(** ** Rejected calls *)

(** X1 — A row number outside [1 .. len(records)] is rejected by [update]
    (whatever the data, also of the wrong arity) and by [delete] with the
    out-of-range error, and the table is left exactly as it was. *)
Theorem out_of_range_rejected (t : Table.t) (row_number : Z) :
  ¬ (1 ≤ row_number ≤ len (Table.records t))%Z →
  (∀ data, Table.update row_number data t
           = (t, Raise (ValueError "Row number out of range."))) ∧
  Table.delete row_number t = (t, Raise (ValueError "Row number out of range.")).
Proof.
  intros Hrow. split; [intros data; by apply update_out_of_range|].
  by apply delete_out_of_range.
Qed.

Lemma out_of_range_rejected_witness :
  (∀ data, Table.update 0 data scenario_A
           = (scenario_A, Raise (ValueError "Row number out of range."))) ∧
  Table.delete 0 scenario_A = (scenario_A, Raise (ValueError "Row number out of range.")).
Proof.
  apply (out_of_range_rejected scenario_A 0). vm_compute. intros [H _]. by apply H.
Defined.

(** X2 — [update] with a valid row number and data of the wrong arity is
    rejected with the arity error before anything is changed: neither the
    records nor the index move. *)
Theorem update_arity_rejected (t : Table.t) (row_number : Z) (data : list value) :
  (1 ≤ row_number ≤ len (Table.records t))%Z →
  length data ≠ length (Table.columns t) →
  Table.update row_number data t
  = (t, Raise (ValueError "Data does not match the number of columns.")).
Proof. apply update_arity. Qed.

Lemma update_arity_rejected_witness :
  Table.update 2 [VInt 2; VStr "Bob"] scenario_A
  = (scenario_A, Raise (ValueError "Data does not match the number of columns.")).
Proof.
  apply (update_arity_rejected scenario_A 2 [VInt 2; VStr "Bob"]).
  - vm_compute. split; discriminate.
  - vm_compute. discriminate.
Defined.

(** ** Records *)

Section dict_more.
Context {K V : Type} `{EqDecision K}.
Implicit Types (d : list (K * V)) (k : K) (v : V).

Lemma dict_get_set d k v k' :
  dict_get (dict_set d k v) k' = if decide (k = k') then Some v else dict_get d k'.
Proof.
  induction d as [|[k0 v0] d IH]; cbn [dict_set dict_get].
  - destruct (decide (k = k')); [done|done].
  - destruct (decide (k0 = k)) as [->|Hk0]; cbn [dict_get].
    + destruct (decide (k = k')); [done|done].
    + rewrite IH. destruct (decide (k0 = k')) as [->|]; [|done].
      by rewrite decide_False by congruence.
Qed.

Lemma dict_set_fresh d k v : k ∉ d.*1 → dict_set d k v = d ++ [(k, v)].
Proof.
  induction d as [|[k0 v0] d IH]; [done|].
  rewrite fmap_cons, not_elem_of_cons. cbn [fst dict_set]. intros [Hne Hk].
  rewrite decide_False by congruence. by rewrite IH.
Qed.

Lemma dict_set_same d k v : dict_get d k = Some v → dict_set d k v = d.
Proof.
  induction d as [|[k0 v0] d IH]; [done|]. cbn [dict_get dict_set].
  destruct (decide (k0 = k)) as [->|]; [by intros [= ->]|].
  intros Hg. by rewrite IH.
Qed.

Lemma dict_of_pairs_acc_distinct (l : list (K * V)) d :
  NoDup (d ++ l).*1 → fold_left (λ d kv, dict_set d kv.1 kv.2) l d = d ++ l.
Proof.
  revert d. induction l as [|[k v] l IH]; intros d Hnd; cbn [fold_left].
  - by rewrite app_nil_r.
  - cbn [fst snd]. rewrite dict_set_fresh.
    + rewrite IH; rewrite <- app_assoc; done.
    + rewrite fmap_app, fmap_cons in Hnd. apply NoDup_app in Hnd as (_ & Hd & _).
      intros Hk. apply (Hd k Hk). apply elem_of_cons. by left.
Qed.

Lemma dict_of_pairs_acc_get (l : list (K * V)) d k :
  dict_get (fold_left (λ d kv, dict_set d kv.1 kv.2) l d) k
  = match dict_get (reverse l) k with
    | Some v => Some v
    | None => dict_get d k
    end.
Proof.
  revert d. induction l as [|[k0 v0] l IH]; intros d; cbn [fold_left]; [done|].
  rewrite IH, reverse_cons. cbn [fst snd]. rewrite dict_get_set.
  assert (∀ (l1 : list (K * V)),
    dict_get (l1 ++ [(k0, v0)]) k
    = match dict_get l1 k with
      | Some v => Some v
      | None => if decide (k0 = k) then Some v0 else None
      end) as Happ.
  { induction l1 as [|[k1 v1] l1 IH1]; cbn [app dict_get]; [done|].
    destruct (decide (k1 = k)); [done | apply IH1]. }
  rewrite Happ. destruct (dict_get (reverse l) k); [done|].
  by destruct (decide (k0 = k)).
Qed.
End dict_more.

(** X3 — With distinct column names and as many values as columns, the
    record built by [dict(zip(columns, values))] is the list of pairs in
    column order: the i-th column holds the i-th value. *)
Theorem record_of_distinct_columns (cols : list string) (data : list value) :
  NoDup cols → length data = length cols →
  dict_of_pairs (zip cols data) = zip cols data ∧
  ∀ (i : nat) c x, cols !! i = Some c → data !! i = Some x →
                   dict_get (dict_of_pairs (zip cols data)) c = Some x.
Proof.
  intros Hnd Hlen.
  assert (dict_of_pairs (zip cols data) = zip cols data) as Heq.
  { unfold dict_of_pairs. rewrite dict_of_pairs_acc_distinct; [done|].
    cbn [app]. by rewrite fst_zip by lia. }
  split; [done|]. intros i c x Hc Hx. rewrite Heq.
  apply dict_get_elem_of; [by rewrite fst_zip by lia|].
  apply list_elem_of_lookup. exists i. apply lookup_zip_with_Some. by exists c, x.
Qed.

Lemma record_of_distinct_columns_witness :
  dict_of_pairs (zip ["id"; "name"; "age"] [VInt 1; VStr "Alice"; VInt 30])
  = zip ["id"; "name"; "age"] [VInt 1; VStr "Alice"; VInt 30] ∧
  ∀ (i : nat) c x,
    ["id"; "name"; "age"] !! i = Some c → [VInt 1; VStr "Alice"; VInt 30] !! i = Some x →
    dict_get (dict_of_pairs (zip ["id"; "name"; "age"] [VInt 1; VStr "Alice"; VInt 30])) c
    = Some x.
Proof.
  apply (record_of_distinct_columns ["id"; "name"; "age"] [VInt 1; VStr "Alice"; VInt 30]).
  - repeat (apply NoDup_cons_2; [by rewrite ?elem_of_cons, ?elem_of_nil; intuition discriminate|]).
    apply NoDup_nil_2.
  - reflexivity.
Defined.

(** X4 — A column name listed more than once gives one cell per record:
    the record has every name once, and the cell holds the value paired
    with the last occurrence of the name. *)
Theorem record_of_repeated_columns (cols : list string) (data : list value) (c : string) :
  NoDup (dict_of_pairs (zip cols data)).*1 ∧
  dict_get (dict_of_pairs (zip cols data)) c = dict_get (reverse (zip cols data)) c.
Proof.
  split; [apply dict_of_pairs_NoDup|].
  unfold dict_of_pairs. rewrite dict_of_pairs_acc_get.
  by destruct (dict_get (reverse _) c).
Qed.

(** ** Adding, updating and searching *)

Lemma add_records_good (recs : list (list value)) (t : Table.t) :
  wf t → Forall (λ data, length data = length (Table.columns t)) recs →
  ∃ idx',
    Table.add_records recs t
    = (Table.mk (Table.name t) (Table.columns t)
         (Table.records t ++ ((λ data, dict_of_pairs (zip (Table.columns t) data)) <$> recs))
         idx',
       Return tt) ∧
    wf (Table.mk (Table.name t) (Table.columns t)
          (Table.records t ++ ((λ data, dict_of_pairs (zip (Table.columns t) data)) <$> recs))
          idx').
Proof.
  revert t. induction recs as [|data recs IH]; intros t Hwf Hgood.
  - exists (Table.indexed_data t). cbn [fmap list_fmap]. rewrite app_nil_r.
    destruct t. by split.
  - apply Forall_cons in Hgood as [Hlen Hgood].
    destruct (add_records_one data t Hwf Hlen) as (idx1 & Hrun1 & Hwf1).
    destruct (IH _ Hwf1 Hgood) as (idx' & Hrun & Hwf').
    cbn [Table.name Table.columns Table.records] in Hrun, Hwf'.
    rewrite <- app_assoc in Hrun, Hwf'.
    exists idx'. rewrite add_records_cons, Hrun1. by split.
Qed.

(** X5 — A batch whose records all have the arity of the table is added
    whole: [add_records] returns, the name and the columns stay, and the
    record list is the old one followed by the batch, in batch order, each
    tuple turned into a record over the columns. *)
Theorem add_records_appends (t : Table.t) (recs : list (list value)) :
  reachable t →
  Forall (λ data, length data = length (Table.columns t)) recs →
  ∃ t',
    Table.add_records recs t = (t', Return tt) ∧
    Table.name t' = Table.name t ∧ Table.columns t' = Table.columns t ∧
    Table.records t'
    = Table.records t ++ ((λ data, dict_of_pairs (zip (Table.columns t) data)) <$> recs) ∧
    ∀ (i : nat) data,
      recs !! i = Some data →
      Table.records t' !! (length (Table.records t) + i)%nat
      = Some (dict_of_pairs (zip (Table.columns t) data)).
Proof.
  intros Hwf%reachable_wf Hgood.
  destruct (add_records_good recs t Hwf Hgood) as (idx' & Hrun & _).
  eexists. split; [apply Hrun|]. cbn [Table.name Table.columns Table.records].
  split_and!; [done..|]. intros i data Hi.
  rewrite lookup_app_r by lia.
  replace (length (Table.records t) + i - length (Table.records t))%nat with i by lia.
  by rewrite list_lookup_fmap, Hi.
Qed.

Lemma add_records_appends_witness :
  ∃ t',
    Table.add_records [[VInt 3; VStr "Carol"; VInt 41]] scenario_A = (t', Return tt) ∧
    Table.name t' = Table.name scenario_A ∧ Table.columns t' = Table.columns scenario_A ∧
    Table.records t'
    = Table.records scenario_A ++
      ((λ data, dict_of_pairs (zip (Table.columns scenario_A) data))
         <$> [[VInt 3; VStr "Carol"; VInt 41]]) ∧
    ∀ (i : nat) data,
      [[VInt 3; VStr "Carol"; VInt 41]] !! i = Some data →
      Table.records t' !! (length (Table.records scenario_A) + i)%nat
      = Some (dict_of_pairs (zip (Table.columns scenario_A) data)).
Proof.
  apply (add_records_appends scenario_A [[VInt 3; VStr "Carol"; VInt 41]]
           reachable_scenario_A).
  apply Forall_cons_2; [reflexivity | apply Forall_nil_2].
Defined.

(** X6 — A batch is added as its parts would be, one after the other:
    [add_records(l1 + l2)] is [add_records(l1)] followed, if that returned,
    by [add_records(l2)]; if the first part raises, the state it leaves and
    its exception are those of the whole call. *)
Theorem add_records_app (recs1 recs2 : list (list value)) (t : Table.t) :
  Table.add_records (recs1 ++ recs2) t
  = match Table.add_records recs1 t with
    | (t1, Return _) => Table.add_records recs2 t1
    | (t1, Raise e) => (t1, Raise e)
    end.
Proof.
  revert t. induction recs1 as [|data recs1 IH]; intros t.
  - cbn [app]. unfold Table.add_records at 2. done.
  - rewrite <- app_comm_cons.
    rewrite (add_records_cons data (recs1 ++ recs2)), (add_records_cons data recs1).
    destruct (Table.add_records [data] t) as [t1 [[]|e]]; [apply IH | done].
Qed.

(** The results of a search in one column, against the record list. *)
Lemma omap_positions_perm (rs : list record) (ps : list Z) c v :
  NoDup ps → (∀ p, p ∈ ps ↔ holds rs p c v) →
  omap (λ p, rs !! Z.to_nat p) ps ≡ₚ filter (λ r, dict_get r c = Some v) rs.
Proof.
  revert ps. induction rs as [|r rs IH] using rev_ind; intros ps Hnd Hin.
  - destruct ps as [|p ps]; [done|].
    assert (p ∈ p :: ps) as Hp by apply list_elem_of_here.
    apply Hin in Hp as [_ (r & Hr & _)]. done.
  - set (n := Z.of_nat (length rs)).
    assert (∀ p, p ∈ filter (λ p, p ≠ n) ps ↔ holds rs p c v) as Hin'.
    { intros p. rewrite list_elem_of_filter, Hin. split.
      - intros [Hne [Hp (r' & Hr' & Hv)]]. split; [done|]. exists r'. split; [|done].
        apply lookup_snoc_Some in Hr' as [[_ ?]|[? _]]; [done | lia].
      - intros Hh. pose proof (holds_lt _ _ _ _ Hh) as Hlt. unfold len in Hlt.
        split; [lia|]. destruct Hh as [Hp (r' & Hr' & Hv)].
        split; [done|]. exists r'. split; [|done]. by apply lookup_app_l_Some. }
    specialize (IH (filter (λ p, p ≠ n) ps) (NoDup_filter _ _ Hnd) Hin').
    rewrite <- (filter_app_complement (λ p, p ≠ n) ps) at 1.
    rewrite omap_app, filter_app.
    apply Permutation_app.
    + rewrite <- IH.
      assert (omap (λ p, (rs ++ [r]) !! Z.to_nat p) (filter (λ p, p ≠ n) ps)
              = omap (λ p, rs !! Z.to_nat p) (filter (λ p, p ≠ n) ps)) as ->; [|done].
      apply list_omap_ext, Forall_Forall2_diag, Forall_forall.
      intros p Hmem. apply Hin' in Hmem as [_ (r' & Hr' & _)].
      rewrite Hr'. by apply lookup_app_l_Some.
    + destruct (decide (dict_get r c = Some v)) as [Hv|Hv].
      * rewrite filter_cons_True, filter_nil by done.
        assert (filter (λ p, ¬ p ≠ n) ps ≡ₚ [n]) as ->.
        { apply NoDup_Permutation; [by apply NoDup_filter | apply NoDup_singleton |].
          intros p. rewrite list_elem_of_filter, list_elem_of_singleton. split.
          - intros [Hp _]. by destruct (decide (p = n)).
          - intros ->. split; [by intros H|]. apply Hin. apply holds_nat.
            exists r. split; [|done]. by apply list_lookup_middle. }
        cbn [omap list_omap]. unfold n. rewrite Nat2Z.id.
        by rewrite list_lookup_middle.
      * rewrite filter_cons_False, filter_nil by done.
        assert (filter (λ p, ¬ p ≠ n) ps = []) as ->; [|done].
        destruct (filter (λ p, ¬ p ≠ n) ps) as [|p l] eqn:E; [done|]. exfalso.
        assert (p ∈ filter (λ p, ¬ p ≠ n) ps) as Hp by (rewrite E; apply list_elem_of_here).
        apply list_elem_of_filter in Hp as [Hpn Hp].
        assert (p = n) as -> by (by destruct (decide (p = n))).
        apply Hin, holds_nat in Hp as (r' & Hr' & Hv').
        rewrite list_lookup_middle in Hr' by done. congruence.
Qed.

(** X7 — Searching one column is an exact-value scan: on a reachable table
    [search(value, [col])] returns, up to order, exactly the records whose
    cell in [col] is [value], each as often as it occurs in the table. *)
Theorem search_one_column (t : Table.t) (v : value) (c : string) :
  reachable t →
  ∃ results,
    Table.search v [c] t = (t, Return results) ∧
    results ≡ₚ filter (λ r, dict_get r c = Some v) (Table.records t).
Proof.
  intros Hwf%reachable_wf. eexists. split; [by apply search_spec|].
  rewrite bind_cons. cbn [mbind list_bind]. rewrite app_nil_r.
  apply omap_positions_perm; apply (wf_idx t Hwf).
Qed.

Lemma search_one_column_witness :
  ∃ results,
    Table.search (VStr "Bob") ["name"] scenario_A = (scenario_A, Return results) ∧
    results ≡ₚ filter (λ r, dict_get r "name" = Some (VStr "Bob")) (Table.records scenario_A).
Proof.
  apply (search_one_column scenario_A (VStr "Bob") "name" reachable_scenario_A).
Defined.

(** X8 — A successful [update] replaces the record at [row_number - 1] by
    the record built from the data and touches no other record, the name or
    the columns; the new record is found at once by a search for any of its
    cells. *)
Theorem update_replaces (t : Table.t) (row_number : Z) (data : list value) :
  reachable t →
  (1 ≤ row_number ≤ len (Table.records t))%Z →
  length data = length (Table.columns t) →
  ∃ t',
    Table.update row_number data t = (t', Return tt) ∧
    Table.name t' = Table.name t ∧ Table.columns t' = Table.columns t ∧
    Table.records t'
    = <[Z.to_nat (row_number - 1) := dict_of_pairs (zip (Table.columns t) data)]>
        (Table.records t) ∧
    ∀ c v,
      dict_get (dict_of_pairs (zip (Table.columns t) data)) c = Some v →
      ∃ results,
        Table.search v [c] t' = (t', Return results) ∧
        dict_of_pairs (zip (Table.columns t) data) ∈ results.
Proof.
  intros Hwf%reachable_wf Hrow Hlen.
  destruct (update_spec t Hwf row_number data Hrow Hlen)
    as (old & idx' & Hold & Hrun & _ & Hwf').
  eexists. split; [apply Hrun|]. cbn [Table.name Table.columns Table.records].
  split_and!; [done..|]. intros c v Hv.
  eexists. split; [by apply search_spec|].
  rewrite bind_cons. cbn [mbind list_bind]. rewrite app_nil_r.
  apply (search_one_elem_of _ v c (Z.to_nat (row_number - 1))); [done | | done].
  cbn [Table.records]. apply list_lookup_insert_eq. by eapply lookup_lt_Some.
Qed.

Lemma update_replaces_witness :
  ∃ t',
    Table.update 1 [VInt 1; VStr "Alice"; VInt 31] scenario_A = (t', Return tt) ∧
    Table.name t' = Table.name scenario_A ∧ Table.columns t' = Table.columns scenario_A ∧
    Table.records t'
    = <[Z.to_nat (1 - 1) :=
          dict_of_pairs (zip (Table.columns scenario_A) [VInt 1; VStr "Alice"; VInt 31])]>
        (Table.records scenario_A) ∧
    ∀ c v,
      dict_get (dict_of_pairs (zip (Table.columns scenario_A)
                                 [VInt 1; VStr "Alice"; VInt 31])) c = Some v →
      ∃ results,
        Table.search v [c] t' = (t', Return results) ∧
        dict_of_pairs (zip (Table.columns scenario_A) [VInt 1; VStr "Alice"; VInt 31])
        ∈ results.
Proof.
  apply (update_replaces scenario_A 1 [VInt 1; VStr "Alice"; VInt 31] reachable_scenario_A).
  - vm_compute. split; discriminate.
  - reflexivity.
Defined.

(** ** Composing the mutations *)

Lemma add_records_one_lookup (data : list value) (t : Table.t) :
  wf t → length data = length (Table.columns t) →
  ∃ idx',
    Table.add_records [data] t
    = (Table.mk (Table.name t) (Table.columns t)
         (Table.records t ++ [dict_of_pairs (zip (Table.columns t) data)]) idx',
       Return tt) ∧
    (∀ c w, bucket idx' c w =
            if decide (dict_get (dict_of_pairs (zip (Table.columns t) data)) c = Some w)
            then bucket (Table.indexed_data t) c w ++ [len (Table.records t)]
            else bucket (Table.indexed_data t) c w) ∧
    wf (Table.mk (Table.name t) (Table.columns t)
          (Table.records t ++ [dict_of_pairs (zip (Table.columns t) data)]) idx').
Proof.
  intros Hwf Hlen.
  destruct (add_record_spec t Hwf data Hlen) as (idx' & Hrun & Hlk & Hwf').
  exists idx'. split_and!; [|by intros c w; unfold bucket at 1; rewrite Hlk; case_decide|done].
  unfold Table.add_records. cbn [for_each]. unfold bind at 1.
  match goal with |- context [bind get ?k t] => change (bind get k t) with (k t t) end.
  cbv beta. rewrite decide_False by (by intros ?). cbv zeta. by rewrite Hrun.
Qed.

Lemma fmap_shift_below (n : Z) (l : list Z) :
  (∀ p, p ∈ l → (p < n)%Z) → shift n <$> l = l.
Proof.
  intros Hl. induction l as [|p l IH]; [done|]. rewrite fmap_cons. f_equal.
  - unfold shift. rewrite decide_True; [done|]. apply Hl, list_elem_of_here.
  - apply IH. intros q Hq. by apply Hl, list_elem_of_further.
Qed.

(** X9 — Adding one record and then deleting the last row undoes the
    addition: the record list is the one from before, and every bucket of
    every column lists the same positions in the same order. *)
Theorem add_then_delete_last (t : Table.t) (data : list value) :
  reachable t → length data = length (Table.columns t) →
  ∃ t1 t2,
    Table.add_records [data] t = (t1, Return tt) ∧
    Table.delete (len (Table.records t) + 1) t1 = (t2, Return tt) ∧
    Table.records t2 = Table.records t ∧
    ∀ c v, bucket (Table.indexed_data t2) c v = bucket (Table.indexed_data t) c v.
Proof.
  intros Hwf%reachable_wf Hlen.
  destruct (add_records_one_lookup data t Hwf Hlen) as (idx1 & Hrun1 & Hbk1 & Hwf1).
  destruct (delete_spec _ Hwf1 (len (Table.records t) + 1))
    as (old & idx2 & Hold & Hrun2 & _ & Hbk2 & _).
  { cbn [Table.records]. unfold len. rewrite length_app. cbn [length]. lia. }
  eexists _, _. split; [apply Hrun1|]. split; [apply Hrun2|].
  cbn [Table.records Table.indexed_data] in *.
  replace (len (Table.records t) + 1 - 1)%Z with (len (Table.records t)) in * by lia.
  unfold len in *. rewrite Nat2Z.id in *. split.
  - rewrite (delete_middle (Table.records t) []). by rewrite app_nil_r.
  - intros c v. rewrite Hbk2, Hbk1.
    assert (∀ p, p ∈ bucket (Table.indexed_data t) c v →
                 (p < Z.of_nat (length (Table.records t)))%Z) as Hlt.
    { intros p Hp%(wf_idx t Hwf). apply holds_lt in Hp. unfold len in Hp. lia. }
    assert (Z.of_nat (length (Table.records t)) ∉ bucket (Table.indexed_data t) c v) as Hnot.
    { intros Hp%Hlt. lia. }
    case_decide.
    + rewrite filter_app, filter_ne_notin by done.
      rewrite filter_cons_False, filter_nil by (by intros H'; apply H').
      rewrite app_nil_r. by apply fmap_shift_below.
    + rewrite filter_ne_notin by done. by apply fmap_shift_below.
Qed.

Lemma add_then_delete_last_witness :
  ∃ t1 t2,
    Table.add_records [[VInt 3; VStr "Alice"; VInt 41]] scenario_A = (t1, Return tt) ∧
    Table.delete (len (Table.records scenario_A) + 1) t1 = (t2, Return tt) ∧
    Table.records t2 = Table.records scenario_A ∧
    ∀ c v, bucket (Table.indexed_data t2) c v = bucket (Table.indexed_data scenario_A) c v.
Proof.
  apply (add_then_delete_last scenario_A [VInt 3; VStr "Alice"; VInt 41]
           reachable_scenario_A).
  reflexivity.
Defined.

Lemma index_ext (idx1 idx2 : index) :
  dom idx1 = dom idx2 → (∀ c w, lookup2 idx1 c w = lookup2 idx2 c w) → idx1 = idx2.
Proof.
  intros Hdom Hlk. apply map_eq. intros c.
  destruct (idx1 !! c) as [b1|] eqn:E1, (idx2 !! c) as [b2|] eqn:E2.
  - f_equal. apply map_eq. intros w. specialize (Hlk c w).
    unfold lookup2 in Hlk. by rewrite E1, E2 in Hlk.
  - apply (elem_of_dom_2 idx1) in E1. rewrite Hdom in E1.
    apply not_elem_of_dom in E2. done.
  - apply (elem_of_dom_2 idx2) in E2. rewrite <- Hdom in E2.
    apply not_elem_of_dom in E1. done.
  - done.
Qed.

Lemma wf_dom_eq (t1 t2 : Table.t) :
  wf t1 → wf t2 → Table.columns t1 = Table.columns t2 →
  dom (Table.indexed_data t1) = dom (Table.indexed_data t2).
Proof.
  intros H1 H2 Hc. apply set_eq. intros c.
  rewrite (wf_dom _ H1 c), (wf_dom _ H2 c). by rewrite Hc.
Qed.

(** X10 — [update] is idempotent: repeating a successful update with the
    same row number and data returns again and leaves the table, records
    and index alike, exactly as the first update left it. *)
Theorem update_idempotent (t : Table.t) (row_number : Z) (data : list value) :
  reachable t →
  (1 ≤ row_number ≤ len (Table.records t))%Z →
  length data = length (Table.columns t) →
  Table.update row_number data (Table.update row_number data t).1
  = ((Table.update row_number data t).1, Return tt).
Proof.
  intros Hwf%reachable_wf Hrow Hlen.
  destruct (update_spec t Hwf row_number data Hrow Hlen)
    as (old & idx1 & Hold & Hrun1 & Hlk1 & Hwf1).
  rewrite Hrun1. cbn [fst].
  destruct (update_spec _ Hwf1 row_number data) as (old2 & idx2 & Hold2 & Hrun2 & Hlk2 & Hwf2).
  { cbn [Table.records]. unfold len in *. by rewrite length_insert. }
  { done. }
  cbn [Table.name Table.columns Table.records Table.indexed_data] in *.
  rewrite Hrun2, list_insert_insert_eq. do 2 f_equal.
  rewrite list_lookup_insert_eq in Hold2
    by (unfold len in Hrow; lia).
  injection Hold2 as <-.
  apply index_ext.
  - by apply (wf_dom_eq _ _ Hwf2 Hwf1).
  - intros c w. rewrite Hlk2.
    destruct (decide (dict_get (dict_of_pairs (zip (Table.columns t) data)) c = Some w))
      as [Hnew|Hnew]; [|done].
    unfold bucket at 1. rewrite !Hlk1. rewrite !decide_True by done.
    cbn [from_option id]. rewrite filter_app.
    rewrite filter_cons_False, filter_nil by (by intros H'; apply H').
    rewrite app_nil_r. f_equal. f_equal.
    apply filter_ne_notin. rewrite list_elem_of_filter. by intros [H' _].
Qed.

Lemma update_idempotent_witness :
  Table.update 1 [VInt 1; VStr "Alice"; VInt 31]
    (Table.update 1 [VInt 1; VStr "Alice"; VInt 31] scenario_A).1
  = ((Table.update 1 [VInt 1; VStr "Alice"; VInt 31] scenario_A).1, Return tt).
Proof.
  apply (update_idempotent scenario_A 1 [VInt 1; VStr "Alice"; VInt 31]
           reachable_scenario_A).
  - vm_compute. split; discriminate.
  - reflexivity.
Defined.

(** ** Loading a snapshot that does not fit its columns *)

(** A loop whose iterations can only raise [e], and in which one iteration
    does raise under the invariant, raises [e]. *)
Lemma for_each_raises {S X} (I : S → Prop) (f : X → M S unit) (e : exn)
    (l : list X) (x : X) :
  x ∈ l →
  (∀ y s, I s → I (f y s).1) →
  (∀ y s, I s → (f y s).2 = Return tt ∨ (f y s).2 = Raise e) →
  (∀ s, I s → (f x s).2 = Raise e) →
  ∀ s, I s → (for_each f l s).2 = Raise e.
Proof.
  intros Hx Hinv Hout Hbad. induction l as [|y l IH]; intros s Hs.
  - by apply elem_of_nil in Hx.
  - cbn [for_each]. unfold bind.
    pose proof (Hinv y s Hs) as Hs'. pose proof (Hout y s Hs) as Ho.
    apply elem_of_cons in Hx as [<-|Hx].
    + pose proof (Hbad s Hs) as Hb. by destruct (f x s) as [s1 [[]|e1]].
    + destruct (f y s) as [s1 [[]|e1]]; cbn [fst snd] in *.
      * by apply IH.
      * by destruct Ho.
Qed.

Lemma for_each_outcome {S X} (I : S → Prop) (f : X → M S unit) (e : exn) (l : list X) :
  (∀ y s, I s → I (f y s).1) →
  (∀ y s, I s → (f y s).2 = Return tt ∨ (f y s).2 = Raise e) →
  ∀ s, I s → (for_each f l s).2 = Return tt ∨ (for_each f l s).2 = Raise e.
Proof.
  intros Hinv Hout. induction l as [|y l IH]; intros s Hs; [by left|].
  cbn [for_each]. unfold bind.
  pose proof (Hinv y s Hs) as Hs'. pose proof (Hout y s Hs) as Ho.
  destruct (f y s) as [s1 [[]|e1]]; cbn [fst snd] in *; [by apply IH | done].
Qed.

Lemma on_index_append_dom col v pos (s : Table.t) :
  dom (Table.indexed_data (Table.on_index (index_append col v pos) s).1)
  = dom (Table.indexed_data s).
Proof.
  unfold Table.on_index.
  pose proof (index_append_dom col v pos (Table.indexed_data s)) as Hd.
  by destruct (index_append col v pos (Table.indexed_data s)).
Qed.

Lemma on_index_append_outcome col v pos (s : Table.t) :
  (Table.on_index (index_append col v pos) s).2
  = if decide (col ∈ dom (Table.indexed_data s)) then Return tt else Raise KeyError.
Proof.
  unfold Table.on_index, index_append.
  destruct (Table.indexed_data s !! col) as [b|] eqn:E; cbn [snd].
  - rewrite decide_True; [done | by apply elem_of_dom].
  - rewrite decide_False; [done | by apply not_elem_of_dom].
Qed.

Lemma elem_of_enumerate {A} (l : list A) (x : A) :
  x ∈ l → ∃ i, (i, x) ∈ enumerate l.
Proof.
  intros (n & Hn)%list_elem_of_lookup. exists (Z.of_nat n).
  apply list_elem_of_lookup. exists n. unfold enumerate.
  apply lookup_zip_with_Some. exists (Z.of_nat n), x. split_and!; [done | | done].
  rewrite lookup_seqZ. apply lookup_lt_Some in Hn. unfold len. lia.
Qed.

(** X11 — [from_dict] raises [KeyError] as soon as the snapshot has a record
    with a key that is not one of the snapshot's columns. *)
Theorem from_dict_unknown_column (data : Table.snapshot) (self : Table.t)
    (r : record) (col : string) :
  r ∈ Table.snap_records data → col ∈ r.*1 → col ∉ Table.snap_columns data →
  (Table.from_dict data self).2 = Raise KeyError.
Proof.
  intros Hr Hcol Hbad.
  destruct (elem_of_enumerate _ _ Hr) as [i Hi].
  apply list_elem_of_fmap in Hcol as ([col' v] & -> & Hcv). cbn [fst] in Hbad.
  unfold Table.from_dict, bind at 1, get. unfold bind at 1, put.
  set (I := λ s : Table.t, ∀ c, c ∈ dom (Table.indexed_data s) ↔ c ∈ Table.snap_columns data).
  assert (∀ (pos : Z) (y : string * value) (s : Table.t), I s →
            I ((let '(c, w) := y in Table.on_index (index_append c w pos)) s).1) as Hinner_inv.
  { intros pos [c w] s Hs c'. rewrite on_index_append_dom. apply Hs. }
  assert (∀ (pos : Z) (y : string * value) (s : Table.t), I s →
            ((let '(c, w) := y in Table.on_index (index_append c w pos)) s).2 = Return tt ∨
            ((let '(c, w) := y in Table.on_index (index_append c w pos)) s).2 = Raise KeyError)
    as Hinner_out.
  { intros pos [c w] s Hs. rewrite on_index_append_outcome. case_decide; [by left | by right]. }
  apply (for_each_raises I _ KeyError _ (i, r) Hi).
  - intros [pos r'] s Hs. apply (for_each_inv I); [apply Hinner_inv | done].
  - intros [pos r'] s Hs. apply (for_each_outcome I); [apply Hinner_inv | apply Hinner_out | done].
  - intros s Hs. apply (for_each_raises I _ KeyError _ (col', v) Hcv);
      [apply Hinner_inv | apply Hinner_out | | done].
    intros s' Hs'. rewrite on_index_append_outcome. rewrite decide_False; [done|].
    by rewrite (Hs' col').
  - intros c. cbn [Table.indexed_data]. apply dom_empty_index.
Qed.

Lemma from_dict_unknown_column_witness :
  (Table.from_dict (Table.mk_snapshot ["id"] [[("id", VInt 1); ("name", VStr "Alice")]])
     users).2
  = Raise KeyError.
Proof.
  apply (from_dict_unknown_column
           (Table.mk_snapshot ["id"] [[("id", VInt 1); ("name", VStr "Alice")]]) users
           [("id", VInt 1); ("name", VStr "Alice")] "name").
  - apply list_elem_of_here.
  - apply list_elem_of_further, list_elem_of_here.
  - cbn. rewrite list_elem_of_singleton. discriminate.
Defined.

(** * Further properties of the database facade *)

Lemma allowed_gate (s : ElementalDB.t) :
  allowed s = true →
  ElementalDB.auth_enabled s && negb (ElementalDB.truthy (ElementalDB.current_user s)) = false.
Proof. unfold allowed. by destruct (_ && _). Qed.

Lemma set_tables_same (s : ElementalDB.t) : ElementalDB.set_tables (ElementalDB.tables s) s = s.
Proof. by destruct s. Qed.

(** ** Creating tables *)

(** X12 — [table_create] of a new name, or of any name with
    [overwrite=True], returns a fresh empty table and registers it under
    the name: a new name goes last in [list_tables], an overwritten one
    keeps its place and loses its records; the other tables, the cache and
    the snapshot files (also the overwritten table's) are untouched. *)
Theorem table_create_registers (s : ElementalDB.t) (name : string)
    (columns : list string) (overwrite : bool) :
  allowed s = true →
  name ∉ (ElementalDB.tables s).*1 ∨ overwrite = true →
  ∃ s',
    ElementalDB.table_create name columns overwrite s
    = (s', Return (Table.init name columns)) ∧
    dict_get (ElementalDB.tables s') name = Some (Table.init name columns) ∧
    (∀ other, other ≠ name →
              dict_get (ElementalDB.tables s') other = dict_get (ElementalDB.tables s) other) ∧
    (ElementalDB.list_tables s').2
    = Return (if decide (name ∈ (ElementalDB.tables s).*1)
              then (ElementalDB.tables s).*1
              else (ElementalDB.tables s).*1 ++ [name]) ∧
    ElementalDB.database s' = ElementalDB.database s ∧
    ElementalDB.cache s' = ElementalDB.cache s.
Proof.
  intros Hgate%allowed_gate Hnew. eexists. split.
  - unfold ElementalDB.table_create, bind at 1, get. rewrite Hgate.
    assert (bool_decide (name ∈ (ElementalDB.tables s).*1) && negb overwrite = false) as ->.
    { destruct Hnew as [Hnew| ->]; [by rewrite bool_decide_eq_false_2 | by rewrite andb_false_r]. }
    unfold bind, put, ret. reflexivity.
  - cbn [ElementalDB.tables ElementalDB.set_tables ElementalDB.database ElementalDB.cache].
    split_and!; [| | |done|done].
    + rewrite dict_get_set. by rewrite decide_True.
    + intros other Hne. rewrite dict_get_set. by rewrite decide_False.
    + unfold ElementalDB.list_tables, bind, get, ret.
      cbn [snd ElementalDB.tables ElementalDB.set_tables]. by rewrite dict_set_keys.
Qed.

Lemma table_create_registers_witness :
  ∃ s',
    ElementalDB.table_create "Orders" ["id"] false db_A
    = (s', Return (Table.init "Orders" ["id"])) ∧
    dict_get (ElementalDB.tables s') "Orders" = Some (Table.init "Orders" ["id"]) ∧
    (∀ other, other ≠ "Orders" →
              dict_get (ElementalDB.tables s') other
              = dict_get (ElementalDB.tables db_A) other) ∧
    (ElementalDB.list_tables s').2
    = Return (if decide ("Orders" ∈ (ElementalDB.tables db_A).*1)
              then (ElementalDB.tables db_A).*1
              else (ElementalDB.tables db_A).*1 ++ ["Orders"]) ∧
    ElementalDB.database s' = ElementalDB.database db_A ∧
    ElementalDB.cache s' = ElementalDB.cache db_A.
Proof.
  apply (table_create_registers db_A "Orders" ["id"] false).
  - reflexivity.
  - left. intros H. apply list_elem_of_In in H. vm_compute in H.
    destruct H as [H|[]]. discriminate H.
Defined.

(** X13 — [table_create] of a name already registered, without
    [overwrite], raises the already-exists [ValueError] and changes
    nothing: the registered table keeps its records. *)
Theorem table_create_exists (s : ElementalDB.t) (name : string) (columns : list string) :
  allowed s = true →
  name ∈ (ElementalDB.tables s).*1 →
  ElementalDB.table_create name columns false s
  = (s, Raise (ValueError ("Table '" +:+ name +:+
                           "' already exists. Use 'overwrite=True' to overwrite."))).
Proof.
  intros Hgate%allowed_gate Hin.
  unfold ElementalDB.table_create, bind, get. rewrite Hgate.
  by rewrite bool_decide_eq_true_2.
Qed.

Lemma table_create_exists_witness :
  ElementalDB.table_create "Users" ["x"] false db_A
  = (db_A, Raise (ValueError ("Table '" +:+ "Users" +:+
                              "' already exists. Use 'overwrite=True' to overwrite."))).
Proof.
  apply (table_create_exists db_A "Users" ["x"]).
  - reflexivity.
  - vm_compute. apply list_elem_of_here.
Defined.

(** ** Unknown tables *)

(** X14 — Past the authentication gate, [add], [update] and [delete] on a
    name that is not registered raise the does-not-exist [ValueError] and
    change nothing; so does [search], unless the cache has an entry for it. *)
Theorem unknown_table_rejected (s : ElementalDB.t) (table_name : string) :
  allowed s = true →
  dict_get (ElementalDB.tables s) table_name = None →
  (∀ records, ElementalDB.add table_name records s
     = (s, Raise (ValueError ("Table '" +:+ table_name +:+ "' does not exist.")))) ∧
  (∀ row_number data, ElementalDB.update table_name row_number data s
     = (s, Raise (ValueError ("Table '" +:+ table_name +:+ "' does not exist.")))) ∧
  (∀ row_number, ElementalDB.delete table_name row_number s
     = (s, Raise (ValueError ("Table '" +:+ table_name +:+ "' does not exist.")))) ∧
  (∀ v in_columns,
     ElementalDB.cache s !! (table_name, v, in_columns) = None →
     ElementalDB.search table_name v in_columns s
     = (s, Raise (ValueError ("Table '" +:+ table_name +:+ "' does not exist.")))).
Proof.
  intros Hgate%allowed_gate Hnone. split_and!; intros;
    unfold ElementalDB.add, ElementalDB.update, ElementalDB.delete, ElementalDB.search,
      bind, get.
  - by rewrite Hgate, Hnone.
  - by rewrite Hgate, Hnone.
  - by rewrite Hgate, Hnone.
  - match goal with H : _ !! _ = None |- _ => rewrite H end. by rewrite Hnone.
Qed.

Lemma unknown_table_rejected_witness :
  (∀ records, ElementalDB.add "Orders" records db_A
     = (db_A, Raise (ValueError ("Table '" +:+ "Orders" +:+ "' does not exist.")))) ∧
  (∀ row_number data, ElementalDB.update "Orders" row_number data db_A
     = (db_A, Raise (ValueError ("Table '" +:+ "Orders" +:+ "' does not exist.")))) ∧
  (∀ row_number, ElementalDB.delete "Orders" row_number db_A
     = (db_A, Raise (ValueError ("Table '" +:+ "Orders" +:+ "' does not exist.")))) ∧
  (∀ v in_columns,
     ElementalDB.cache db_A !! ("Orders", v, in_columns) = None →
     ElementalDB.search "Orders" v in_columns db_A
     = (db_A, Raise (ValueError ("Table '" +:+ "Orders" +:+ "' does not exist.")))).
Proof.
  apply (unknown_table_rejected db_A "Orders"); reflexivity.
Defined.

(** ** Mutations and their snapshots *)





(** X17 — The worker's exception reaches the caller: past the gate, for a
    registered table, a row number out of range makes the facade's [update]
    and [delete] raise the out-of-range error, and then nothing is written,
    neither to the tables nor to the snapshot files. *)
Theorem facade_out_of_range (s : ElementalDB.t) (table_name : string) (t : Table.t)
    (row_number : Z) :
  allowed s = true →
  dict_get (ElementalDB.tables s) table_name = Some t →
  ¬ (1 ≤ row_number ≤ len (Table.records t))%Z →
  (∀ data, ElementalDB.update table_name row_number data s
           = (s, Raise (ValueError "Row number out of range."))) ∧
  ElementalDB.delete table_name row_number s
  = (s, Raise (ValueError "Row number out of range.")).
Proof.
  intros Hgate%allowed_gate Hfound Hrow. split; [intros data|].
  - unfold ElementalDB.update, bind at 1, get. rewrite Hgate, Hfound.
    unfold ElementalDB.run_in_executor. by rewrite update_out_of_range.
  - unfold ElementalDB.delete, bind at 1, get. rewrite Hgate, Hfound.
    unfold ElementalDB.run_in_executor. by rewrite delete_out_of_range.
Qed.

Lemma facade_out_of_range_witness :
  (∀ data, ElementalDB.update "Users" 3 data db_A
           = (db_A, Raise (ValueError "Row number out of range."))) ∧
  ElementalDB.delete "Users" 3 db_A = (db_A, Raise (ValueError "Row number out of range.")).
Proof.
  apply (facade_out_of_range db_A "Users" scenario_A 3).
  - reflexivity.
  - vm_compute. reflexivity.
  - vm_compute. intros [_ H]. by apply H.
Defined.

(** ** Saving and loading *)



(** X19 — Nothing to load, nothing to save: [load_table] of a name without
    snapshot file raises the does-not-exist [ValueError] and changes
    nothing (a table registered under that name stays as it is);
    [save_table] of a name that is not registered returns without an error
    and writes no file. *)
Theorem load_save_missing (s : ElementalDB.t) (table_name : string) :
  (ElementalDB.database s !! table_name = None →
   ElementalDB.load_table table_name s
   = (s, Raise (ValueError ("Table '" +:+ table_name +:+ "' does not exist.")))) ∧
  (dict_get (ElementalDB.tables s) table_name = None →
   ElementalDB.save_table table_name s = (s, Return tt)).
Proof.
  split; intros Hnone.
  - unfold ElementalDB.load_table, bind, get. by rewrite Hnone.
  - unfold ElementalDB.save_table, bind, get. by rewrite Hnone.
Qed.

(** ** Searching through the cache *)

(** X20 — A first search: with no cache entry for the key and a registered
    reachable table, the facade's [search] returns what [Table.search]
    returns on that table and stores it under the key; nothing else
    changes. *)
Theorem search_miss (s : ElementalDB.t) (table_name : string) (t : Table.t)
    (v : value) (in_columns : list string) :
  ElementalDB.cache s !! (table_name, v, in_columns) = None →
  dict_get (ElementalDB.tables s) table_name = Some t →
  reachable t →
  ∃ results,
    Table.search v in_columns t = (t, Return results) ∧
    ElementalDB.search table_name v in_columns s
    = (ElementalDB.set_cache
         (<[(table_name, v, in_columns) := results]> (ElementalDB.cache s)) s,
       Return results).
Proof.
  intros Hmiss Hfound Hwf%reachable_wf.
  pose proof (search_spec t v in_columns Hwf) as Hsearch.
  eexists. split; [apply Hsearch|].
  unfold ElementalDB.search, bind at 1, get. rewrite Hmiss, Hfound.
  unfold bind at 1, ElementalDB.on_table. rewrite Hsearch.
  rewrite dict_set_same by done. rewrite set_tables_same.
  unfold bind, get, put, ret. reflexivity.
Qed.

Lemma search_miss_witness :
  ∃ results,
    Table.search (VStr "Bob") ["name"] scenario_A = (scenario_A, Return results) ∧
    ElementalDB.search "Users" (VStr "Bob") ["name"] db_A
    = (ElementalDB.set_cache
         (<[("Users", VStr "Bob", ["name"]) := results]> (ElementalDB.cache db_A)) db_A,
       Return results).
Proof.
  apply (search_miss db_A "Users" scenario_A (VStr "Bob") ["name"]).
  - reflexivity.
  - vm_compute. reflexivity.
  - apply reachable_scenario_A.
Defined.

(** ** Credentials and the gate *)

(** X21 — Signing up and then signing in: for an email not yet known,
    [signup] returns, stores the hash under the email and writes the whole
    credential table to the credential file; if the credential library
    accepts the password against the hash it made, [signin] with the same
    password then returns and makes the email the current user. *)
Theorem signup_then_signin (hashpw : string → string → string)
    (checkpw : string → string → bool) (s : ElementalDB.t) (email password salt : string) :
  email ∉ dom (ElementalDB.auth_data s) →
  checkpw password (hashpw password salt) = true →
  ∃ s1,
    ElementalDB.signup hashpw email password salt s = (s1, Return tt) ∧
    ElementalDB.auth_data s1 = <[email := hashpw password salt]> (ElementalDB.auth_data s) ∧
    ElementalDB.auth_file s1 = Some (ElementalDB.auth_data s1) ∧
    ElementalDB.tables s1 = ElementalDB.tables s ∧
    ElementalDB.current_user s1 = ElementalDB.current_user s ∧
    ElementalDB.signin checkpw email password s1
    = (ElementalDB.set_current_user (Some email) s1, Return tt).
Proof.
  intros Hnew Hcheck. eexists. split.
  - unfold ElementalDB.signup, ElementalDB.save_auth_data, bind, get, put.
    rewrite bool_decide_eq_false_2 by done. reflexivity.
  - cbn [ElementalDB.auth_data ElementalDB.auth_file ElementalDB.tables
         ElementalDB.current_user ElementalDB.set_auth_data ElementalDB.set_auth_file].
    split_and!; [done..|].
    unfold ElementalDB.signin, bind, get, put.
    cbn [ElementalDB.auth_data ElementalDB.set_auth_data ElementalDB.set_auth_file].
    rewrite lookup_insert_eq, Hcheck. reflexivity.
Qed.

Lemma signup_then_signin_witness :
  ∃ s1,
    ElementalDB.signup (λ password salt, password)
      "user@example.com" "password123" "salt" db0 = (s1, Return tt) ∧
    ElementalDB.auth_data s1 = <["user@example.com" := "password123"]> (ElementalDB.auth_data db0) ∧
    ElementalDB.auth_file s1 = Some (ElementalDB.auth_data s1) ∧
    ElementalDB.tables s1 = ElementalDB.tables db0 ∧
    ElementalDB.current_user s1 = ElementalDB.current_user db0 ∧
    ElementalDB.signin String.eqb "user@example.com" "password123" s1
    = (ElementalDB.set_current_user (Some "user@example.com") s1, Return tt).
Proof.
  apply (signup_then_signin (λ password salt, password) String.eqb db0
           "user@example.com" "password123" "salt").
  - intros H. apply elem_of_dom in H as [h H]. vm_compute in H. discriminate H.
  - reflexivity.
Defined.

(** X22 — Rejected credentials change nothing: [signup] with a known email,
    [signin] with an unknown email, and [signin] with a password the
    credential library rejects each raise their [ValueError] and leave the
    state, the current user included, as it was. *)
Theorem credentials_rejected (hashpw : string → string → string)
    (checkpw : string → string → bool) (s : ElementalDB.t) (email password : string) :
  (∀ salt, email ∈ dom (ElementalDB.auth_data s) →
     ElementalDB.signup hashpw email password salt s
     = (s, Raise (ValueError "Email already exists."))) ∧
  (ElementalDB.auth_data s !! email = None →
     ElementalDB.signin checkpw email password s
     = (s, Raise (ValueError "Email does not exist."))) ∧
  (∀ hashed, ElementalDB.auth_data s !! email = Some hashed →
     checkpw password hashed = false →
     ElementalDB.signin checkpw email password s
     = (s, Raise (ValueError "Invalid password."))).
Proof.
  split_and!.
  - intros salt Hin. unfold ElementalDB.signup, bind, get.
    by rewrite bool_decide_eq_true_2.
  - intros Hnone. unfold ElementalDB.signin, bind, get. by rewrite Hnone.
  - intros hashed Hsome Hcheck. unfold ElementalDB.signin, bind, get.
    by rewrite Hsome, Hcheck.
Qed.

(** X23 — A session: with authentication enabled, once [signin] has
    accepted a non-empty email, [table_create] gets through the gate, and
    after [logout] it raises [PermissionError] again. *)
Theorem session_gate (checkpw : string → string → bool) (s : ElementalDB.t)
    (email password hashed name : string) (columns : list string) :
  ElementalDB.auth_enabled s = true →
  ElementalDB.auth_data s !! email = Some hashed →
  checkpw password hashed = true →
  email ≠ "" →
  (ElementalDB.signin checkpw email password s).2 = Return tt ∧
  (ElementalDB.table_create name columns true
     (ElementalDB.signin checkpw email password s).1).2
  = Return (Table.init name columns) ∧
  ElementalDB.table_create name columns true
    (ElementalDB.logout (ElementalDB.signin checkpw email password s).1).1
  = ((ElementalDB.logout (ElementalDB.signin checkpw email password s).1).1,
     Raise (PermissionError "You must be signed in to access the database.")).
Proof.
  intros Hauth Hsome Hcheck Hne.
  assert (ElementalDB.signin checkpw email password s
          = (ElementalDB.set_current_user (Some email) s, Return tt)) as ->.
  { unfold ElementalDB.signin, bind, get, put. by rewrite Hsome, Hcheck. }
  cbn [fst snd]. destruct email as [|a email]; [done|]. split_and!.
  - done.
  - unfold ElementalDB.table_create, bind, get, put, ret.
    cbn [ElementalDB.auth_enabled ElementalDB.current_user ElementalDB.set_current_user
         ElementalDB.truthy negb]. rewrite andb_false_r. cbn [negb]. by rewrite andb_false_r.
  - unfold ElementalDB.logout, bind, get, put.
    cbn [ElementalDB.current_user ElementalDB.set_current_user ElementalDB.truthy fst].
    unfold ElementalDB.table_create, bind, get.
    cbn [ElementalDB.auth_enabled ElementalDB.current_user ElementalDB.set_current_user
         ElementalDB.truthy]. by rewrite Hauth.
Qed.

Lemma session_gate_witness :
  (ElementalDB.signin String.eqb "a@b" "pw"
     (ElementalDB.init true (Some {["a@b" := "pw"]}) ∅)).2 = Return tt ∧
  (ElementalDB.table_create "Users" ["id"] true
     (ElementalDB.signin String.eqb "a@b" "pw"
        (ElementalDB.init true (Some {["a@b" := "pw"]}) ∅)).1).2
  = Return (Table.init "Users" ["id"]) ∧
  ElementalDB.table_create "Users" ["id"] true
    (ElementalDB.logout
       (ElementalDB.signin String.eqb "a@b" "pw"
          (ElementalDB.init true (Some {["a@b" := "pw"]}) ∅)).1).1
  = ((ElementalDB.logout
        (ElementalDB.signin String.eqb "a@b" "pw"
           (ElementalDB.init true (Some {["a@b" := "pw"]}) ∅)).1).1,
     Raise (PermissionError "You must be signed in to access the database.")).
Proof.
  apply (session_gate String.eqb (ElementalDB.init true (Some {["a@b" := "pw"]}) ∅)
           "a@b" "pw" "pw" "Users" ["id"]).
  - reflexivity.
  - vm_compute. reflexivity.
  - reflexivity.
  - discriminate.
Defined.

(** X24 — The empty email does not open the gate: with authentication
    enabled, a [signin] that succeeds for the email [""] makes the empty
    string the current user, which the gate takes as nobody, so [add] still
    raises [PermissionError]. *)
Theorem empty_email_stays_out (checkpw : string → string → bool) (s : ElementalDB.t)
    (password hashed table_name : string) (records : list (list value)) :
  ElementalDB.auth_enabled s = true →
  ElementalDB.auth_data s !! "" = Some hashed →
  checkpw password hashed = true →
  ElementalDB.signin checkpw "" password s
  = (ElementalDB.set_current_user (Some "") s, Return tt) ∧
  (ElementalDB.add table_name records (ElementalDB.signin checkpw "" password s).1).2
  = Raise (PermissionError "You must be signed in to add records.").
Proof.
  intros Hauth Hsome Hcheck.
  assert (ElementalDB.signin checkpw "" password s
          = (ElementalDB.set_current_user (Some "") s, Return tt)) as ->.
  { unfold ElementalDB.signin, bind, get, put. by rewrite Hsome, Hcheck. }
  split; [done|]. unfold ElementalDB.add, bind, get.
  cbn [fst ElementalDB.auth_enabled ElementalDB.current_user ElementalDB.set_current_user
       ElementalDB.truthy]. by rewrite Hauth.
Qed.

Lemma empty_email_stays_out_witness :
  ElementalDB.signin String.eqb "" "pw" (ElementalDB.init true (Some {["" := "pw"]}) ∅)
  = (ElementalDB.set_current_user (Some "") (ElementalDB.init true (Some {["" := "pw"]}) ∅),
     Return tt) ∧
  (ElementalDB.add "Users" [[VInt 1]]
     (ElementalDB.signin String.eqb "" "pw"
        (ElementalDB.init true (Some {["" := "pw"]}) ∅)).1).2
  = Raise (PermissionError "You must be signed in to add records.").
Proof.
  apply (empty_email_stays_out String.eqb (ElementalDB.init true (Some {["" := "pw"]}) ∅)
           "pw" "pw" "Users" [[VInt 1]]).
  - reflexivity.
  - vm_compute. reflexivity.
  - reflexivity.
Defined.

(** ** Consistency of the whole engine *)

Lemma db_ok_same (s s' : ElementalDB.t) :
  ElementalDB.tables s' = ElementalDB.tables s →
  ElementalDB.database s' = ElementalDB.database s →
  db_ok s → db_ok s'.
Proof. intros Ht Hd [H1 H2 H3]. split; rewrite ?Ht, ?Hd; done. Qed.

Lemma db_ok_set_table (s : ElementalDB.t) (k : string) (t : Table.t) :
  db_ok s → wf t → Table.name t = k →
  db_ok (ElementalDB.set_tables (dict_set (ElementalDB.tables s) k t) s).
Proof.
  intros [H1 H2 H3] Hwf Hname. split; cbn [ElementalDB.tables ElementalDB.database
    ElementalDB.set_tables].
  - by apply dict_set_NoDup.
  - intros k' t'. rewrite dict_get_set. case_decide as Hk; [|apply H2].
    intros [= <-]. by subst k'.
  - done.
Qed.

Lemma db_ok_set_file (s : ElementalDB.t) (k : string) (data : Table.snapshot) :
  db_ok s → snapshot_ok data →
  db_ok (ElementalDB.set_database (<[k := data]> (ElementalDB.database s)) s).
Proof.
  intros [H1 H2 H3] Hdata. split; cbn [ElementalDB.tables ElementalDB.database
    ElementalDB.set_database]; [done | done |].
  intros k' data'. rewrite lookup_insert. case_decide; [by intros [= <-] | apply H3].
Qed.

Lemma add_records_wf_name (recs : list (list value)) (t : Table.t) :
  wf t →
  wf (Table.add_records recs t).1 ∧ Table.name (Table.add_records recs t).1 = Table.name t.
Proof.
  intros Hwf. unfold Table.add_records.
  apply (for_each_inv (λ s, wf s ∧ Table.name s = Table.name t)); [|done].
  clear Hwf. intros data s [Hwf Hname].
  match goal with |- context [bind get ?k s] => change (bind get k s) with (k s s) end.
  cbv beta.
  destruct (decide (length data ≠ length (Table.columns s))) as [Hne|Heq]; [done|].
  cbv zeta.
  destruct (add_record_spec s Hwf data) as (idx' & Hrun & _ & Hwf');
    [by destruct (decide (length data = length (Table.columns s)))|].
  rewrite Hrun. done.
Qed.

Lemma search_state (v : value) (cols : list string) (t : Table.t) :
  (Table.search v cols t).1 = t.
Proof. unfold Table.search, bind, get, ret, raise. by destruct (mapM _ _). Qed.

Lemma save_table_db_ok (table_name : string) (s : ElementalDB.t) :
  db_ok s → db_ok (ElementalDB.save_table table_name s).1.
Proof.
  intros Hok. unfold ElementalDB.save_table, bind, get, put, ret.
  destruct (dict_get (ElementalDB.tables s) table_name) as [t|] eqn:Hfound; [|done].
  cbn [fst]. apply db_ok_set_file; [done|].
  destruct (db_tables s Hok _ _ Hfound) as [Hwf _]. apply (wf_rec t Hwf).
Qed.

Section engine.
Variable hashpw : string → string → string.
Variable checkpw : string → string → bool.

Lemma returning_state {A} (f : A → ElementalDB.result) (m : M ElementalDB.t A)
    (s : ElementalDB.t) :
  (ElementalDB.returning f m s).1 = (m s).1.
Proof. unfold ElementalDB.returning, bind, ret. by destruct (m s) as [s1 [a|e]]. Qed.

Lemma perform_db_ok (c : ElementalDB.call) (s : ElementalDB.t) :
  db_ok s → db_ok (ElementalDB.perform hashpw checkpw c s).1.
Proof.
  intros Hok. destruct c; cbn [ElementalDB.perform]; rewrite returning_state.
  - unfold ElementalDB.signup, ElementalDB.save_auth_data, bind, get, put, ret, raise.
    case_bool_decide; cbn [fst]; [done|]. by apply (db_ok_same s).
  - unfold ElementalDB.signin, bind, get, put, ret, raise.
    destruct (ElementalDB.auth_data s !! email); [|done].
    destruct (checkpw _ _); cbn [fst]; [|done]. by apply (db_ok_same s).
  - unfold ElementalDB.logout, bind, get, put, ret.
    destruct (ElementalDB.truthy _); cbn [fst]; [|done]. by apply (db_ok_same s).
  - unfold ElementalDB.table_create, bind, get, put, ret, raise.
    destruct (_ && _); [done|]. destruct (_ && _); [done|]. cbn [fst].
    apply db_ok_set_table; [done | apply wf_init | done].
  - by apply save_table_db_ok.
  - unfold ElementalDB.load_table, bind, get, put, ret, raise.
    destruct (ElementalDB.database s !! table_name) as [data|] eqn:Hfile; [|done].
    destruct (from_dict_spec data (Table.init table_name (Table.snap_columns data)))
      as (idx' & Hrun & Hwf' & _); [by apply (db_files s Hok table_name)|].
    rewrite Hrun. cbn [fst]. by apply db_ok_set_table.
  - unfold ElementalDB.add, bind, get, raise.
    destruct (_ && _); [done|].
    destruct (dict_get (ElementalDB.tables s) table_name) as [t|] eqn:Hfound; [|done].
    destruct (db_tables s Hok _ _ Hfound) as [Hwf Hname].
    destruct (add_records_wf_name records t Hwf) as [Hwf' Hname'].
    unfold ElementalDB.on_table.
    destruct (Table.add_records records t) as [t' [[]|e]]; cbn [fst] in *.
    + apply save_table_db_ok. apply db_ok_set_table; [done | done | congruence].
    + apply db_ok_set_table; [done | done | congruence].
  - unfold ElementalDB.update, bind, get, raise.
    destruct (_ && _); [done|].
    destruct (dict_get (ElementalDB.tables s) table_name) as [t|] eqn:Hfound; [|done].
    destruct (ElementalDB.run_in_executor _ t) as [[]|e]; [|done].
    by apply save_table_db_ok.
  - unfold ElementalDB.delete, bind, get, raise.
    destruct (_ && _); [done|].
    destruct (dict_get (ElementalDB.tables s) table_name) as [t|] eqn:Hfound; [|done].
    destruct (ElementalDB.run_in_executor _ t) as [[]|e]; [|done].
    by apply save_table_db_ok.
  - unfold ElementalDB.search, bind, get, put, ret, raise.
    destruct (ElementalDB.cache s !! _); [done|].
    destruct (dict_get (ElementalDB.tables s) table_name) as [t|] eqn:Hfound; [|done].
    destruct (db_tables s Hok _ _ Hfound) as [Hwf Hname].
    unfold ElementalDB.on_table.
    pose proof (search_state v in_columns t) as Hst.
    destruct (Table.search v in_columns t) as [t' [results|e]]; cbn [fst] in *; subst t'.
    + apply (db_ok_same (ElementalDB.set_tables (dict_set (ElementalDB.tables s) table_name t) s));
        [done | done |]. by apply db_ok_set_table.
    + by apply db_ok_set_table.
  - done.
Qed.

Lemma run_db_ok (calls : list ElementalDB.call) (s : ElementalDB.t) :
  db_ok s → db_ok (ElementalDB.run hashpw checkpw calls s).
Proof.
  revert s. induction calls as [|c calls IH]; intros s Hok; [done|].
  cbn [ElementalDB.run foldl]. apply IH. by apply perform_db_ok.
Qed.

(** X25 — Index consistency of the whole engine.  Start the engine on
    snapshot files in which every record has each column of its snapshot
    exactly once.  After any sequence of calls, returning or raising, the
    registry has each table name once, and every registered table, created
    or loaded, carries the name it is registered under and has a consistent
    index: each bucket lists, once each, exactly the positions whose record
    has the bucket's value in that column. *)
Theorem engine_consistency (auth : bool) (auth_file : option (gmap string string))
    (database : gmap string Table.snapshot) (calls : list ElementalDB.call) :
  (∀ k data, database !! k = Some data →
     ∀ r, r ∈ Table.snap_records data →
          NoDup r.*1 ∧ ∀ c, c ∈ r.*1 ↔ c ∈ Table.snap_columns data) →
  NoDup (ElementalDB.tables
           (ElementalDB.run hashpw checkpw calls
              (ElementalDB.init auth auth_file database))).*1 ∧
  ∀ k t,
    dict_get (ElementalDB.tables
                (ElementalDB.run hashpw checkpw calls
                   (ElementalDB.init auth auth_file database))) k = Some t →
    Table.name t = k ∧
    ∀ c v,
      NoDup (bucket (Table.indexed_data t) c v) ∧
      ∀ p, p ∈ bucket (Table.indexed_data t) c v ↔
           (0 ≤ p)%Z ∧ ∃ r, Table.records t !! Z.to_nat p = Some r ∧ dict_get r c = Some v.
Proof.
  intros Hfiles.
  assert (db_ok (ElementalDB.init auth auth_file database)) as Hinit.
  { split; cbn [ElementalDB.init ElementalDB.tables ElementalDB.database].
    - apply NoDup_nil_2.
    - done.
    - intros k data Hk. apply Forall_forall. intros r Hr. by apply (Hfiles k data). }
  destruct (run_db_ok calls _ Hinit) as [Hnames Htables _].
  split; [done|]. intros k t Hk. destruct (Htables k t Hk) as [Hwf Hname].
  split; [done|]. intros c v. apply (wf_idx t Hwf).
Qed.

End engine.

Lemma engine_consistency_witness :
  NoDup (ElementalDB.tables
           (ElementalDB.run (λ password salt, password) String.eqb
              [ElementalDB.LoadTable "Users";
               ElementalDB.Add "Users" [[VInt 3; VStr "Carol"; VInt 41]; [VInt 4]]]
              (ElementalDB.init false None {["Users" := Table.to_dict scenario_A]}))).*1 ∧
  ∀ k t,
    dict_get (ElementalDB.tables
                (ElementalDB.run (λ password salt, password) String.eqb
                   [ElementalDB.LoadTable "Users";
                    ElementalDB.Add "Users" [[VInt 3; VStr "Carol"; VInt 41]; [VInt 4]]]
                   (ElementalDB.init false None {["Users" := Table.to_dict scenario_A]})))
      k = Some t →
    Table.name t = k ∧
    ∀ c v,
      NoDup (bucket (Table.indexed_data t) c v) ∧
      ∀ p, p ∈ bucket (Table.indexed_data t) c v ↔
           (0 ≤ p)%Z ∧ ∃ r, Table.records t !! Z.to_nat p = Some r ∧ dict_get r c = Some v.
Proof.
  apply (engine_consistency (λ password salt, password) String.eqb false None
           {["Users" := Table.to_dict scenario_A]}).
  intros k data Hk. apply lookup_singleton_Some in Hk as [_ <-].
  intros r Hr.
  apply (proj1 (Forall_forall _ _) (wf_rec _ (reachable_wf _ reachable_scenario_A)) r Hr).
Defined.
